(** * CSmart-Finetuning: the question-answering service of [app.py]

    A shallow embedding of the service layer of [app.py] (request model,
    model loading, [/health], [/predict]) and of the answer extraction that
    [test_local.py] repeats, followed by the properties of the service.

    Python [str] values are sequences of Unicode code points; they are
    modelled as [list N].  The tokenizer, the model and the loaders of the
    [transformers]/[peft] runtime are external objects: they appear as
    records of functions that either return a value or raise. *)

From Stdlib Require Import List NArith ZArith Bool Ascii String Lia PrimFloat.
Import ListNotations.

Set Warnings "-inexact-float,-register-all".

(* ================================================================= *)
(** ** Python strings *)

Module PyStr.

(** A code point. *)
Definition char := N.

(** A Python [str]. *)
Definition str := list char.

(** The source files are UTF-8; a literal of the source is written here as
    the same UTF-8 text and decoded to its code points. *)
Fixpoint utf8_decode (bs : list N) : str :=
  match bs with
  | [] => []
  | b0 :: r0 =>
      if (b0 <? 128)%N then b0 :: utf8_decode r0
      else if (b0 <? 224)%N then
        match r0 with
        | b1 :: r1 =>
            N.lor (N.shiftl (N.land b0 31) 6) (N.land b1 63) :: utf8_decode r1
        | _ => []
        end
      else if (b0 <? 240)%N then
        match r0 with
        | b1 :: b2 :: r2 =>
            N.lor (N.shiftl (N.land b0 15) 12)
              (N.lor (N.shiftl (N.land b1 63) 6) (N.land b2 63))
            :: utf8_decode r2
        | _ => []
        end
      else
        match r0 with
        | b1 :: b2 :: b3 :: r3 =>
            N.lor (N.shiftl (N.land b0 7) 18)
              (N.lor (N.shiftl (N.land b1 63) 12)
                 (N.lor (N.shiftl (N.land b2 63) 6) (N.land b3 63)))
            :: utf8_decode r3
        | _ => []
        end
  end.

Definition lit (s : string) : str :=
  utf8_decode (map N_of_ascii (list_ascii_of_string s)).

(** [str.isspace] on one character: the code points CPython's
    [_PyUnicode_IsWhitespace] accepts. *)
Definition isspace (c : char) : bool :=
  ((9 <=? c) && (c <=? 13) || (28 <=? c) && (c <=? 32)
   || (c =? 133) || (c =? 160) || (c =? 5760)
   || (8192 <=? c) && (c <=? 8202)
   || (c =? 8232) || (c =? 8233) || (c =? 8239) || (c =? 8287)
   || (c =? 12288))%N.

(** [s.lstrip()], [s.rstrip()], [s.strip()] with no argument. *)
Fixpoint lstrip (s : str) : str :=
  match s with
  | [] => []
  | c :: s' => if isspace c then lstrip s' else s
  end.

Definition rstrip (s : str) : str := rev (lstrip (rev s)).

Definition strip (s : str) : str := rstrip (lstrip s).

(** [s.startswith(p)]. *)
Fixpoint startswith (p s : str) : bool :=
  match p, s with
  | [], _ => true
  | _ :: _, [] => false
  | a :: p', b :: s' => (a =? b)%N && startswith p' s'
  end.

(** [sep in s]: some position of [s] starts an occurrence of [sep]. *)
Fixpoint contains (sep s : str) : bool :=
  startswith sep s
  || match s with
     | [] => false
     | _ :: s' => contains sep s'
     end.

(** The leftmost occurrence of [sep] in [s], as the text before it and the
    text after it ([str.partition] without the separator). *)
Fixpoint cut (sep s : str) : option (str * str) :=
  if startswith sep s then Some ([], skipn (List.length sep) s)
  else
    match s with
    | [] => None
    | c :: s' =>
        match cut sep s' with
        | Some (a, b) => Some (c :: a, b)
        | None => None
        end
    end.

(** [s.split(sep, maxsplit)] for a non-empty [sep] and [maxsplit >= 0]:
    at most [maxsplit] cuts, at the leftmost occurrences. *)
Fixpoint split (sep : str) (maxsplit : nat) (s : str) : list str :=
  match maxsplit with
  | O => [s]
  | S k =>
      match cut sep s with
      | None => [s]
      | Some (a, b) => a :: split sep k b
      end
  end.

End PyStr.

Import PyStr.

(* ================================================================= *)
(** ** Exceptions and the runtime objects *)

(** An instance [e] of Python's [Exception]; [message e] is [str(e)]. *)
Record Exception := { message : str }.

(** The outcome of a call: the exception it raised, or its value. *)
Definition result (A : Type) : Type := (Exception + A)%type.

(** [l[i]] on a Python list. *)
Definition getitem {A : Type} (l : list A) (i : nat) : result A :=
  match nth_error l i with
  | Some x => inr x
  | None => inl {| message := lit "list index out of range" |}
  end.

(** Token ids of one sequence, a batch of sequences, and the mapping the
    tokenizer returns ([input_ids], [attention_mask]). *)
Definition TokenIds := list Z.
Definition Tensor := list TokenIds.
Definition BatchEncoding := list (string * Tensor).

(** The keyword arguments of [model.generate]. *)
Module Generate.
Record Args := {
  inputs : BatchEncoding;
  max_new_tokens : option Z;
  temperature : option float;
  top_k : option Z;
  top_p : option float;
  do_sample : bool;
  repetition_penalty : option float;
  no_repeat_ngram_size : Z;
  eos_token_id : option Z;
  pad_token_id : option Z
}.
End Generate.

(** The tokenizer object: [tokenizer(prompt, return_tensors="pt")],
    [inputs.to(device)] on what it returned,
    [tokenizer.decode(ids, skip_special_tokens=True)] and its two
    attributes. *)
Record Tokenizer := {
  tok_call : str -> result BatchEncoding;
  encoding_to : BatchEncoding -> str -> result BatchEncoding;
  tok_decode : TokenIds -> result str;
  eos_token_id : option Z;
  pad_token_id : option Z
}.

(** The model object: [model.generate] with its keyword arguments,
    [outputs[i]] on what it returned, and the device of its first
    parameter. *)
Record Model := {
  generate : Generate.Args -> result Tensor;
  outputs_getitem : Tensor -> nat -> result TokenIds;
  parameters_device : result str
}.

(** What [load_model] reaches outside the process: [os.environ], the
    import of [peft], the three [from_pretrained] loaders, [model.to] and
    [model.eval]. *)
Record Loader := {
  environ : string -> option str;
  import_peft : result unit;
  AutoModelForCausalLM_from_pretrained : str -> option str -> str -> result Model;
  PeftModel_from_pretrained : Model -> str -> result Model;
  AutoTokenizer_from_pretrained : str -> option str -> str -> result Tokenizer;
  model_to : Model -> str -> result Model;
  model_eval : Model -> result unit
}.

(** A call into the runtime, recorded when it is made. *)
Inductive event : Type :=
| CallTokenizer (prompt : str)
| CallTo (inputs : BatchEncoding) (device : str)
| CallGenerate (args : Generate.Args)
| CallDecode (ids : TokenIds).

(** The module-level globals of [app.py] and the calls made so far. *)
Record World := {
  tokenizer : option Tokenizer;
  model : option Model;
  calls : list event
}.

(* ================================================================= *)
(** ** Code that reads and writes the globals and may raise *)

Definition M (E A : Type) : Type := World -> (E + A) * World.

Definition ret {E A : Type} (a : A) : M E A := fun w => (inr a, w).

Definition raise {E A : Type} (e : E) : M E A := fun w => (inl e, w).

Definition bind {E A B : Type} (c : M E A) (k : A -> M E B) : M E B :=
  fun w =>
    match c w with
    | (inl e, w') => (inl e, w')
    | (inr a, w') => k a w'
    end.

(** [try: body except Exception as e: handler e]. *)
Definition try_except {E E' A : Type} (body : M E A) (handler : E -> M E' A)
  : M E' A :=
  fun w =>
    match body w with
    | (inl e, w') => handler e w'
    | (inr a, w') => (inr a, w')
    end.

(** A pure step that may raise. *)
Definition lift {A : Type} (r : result A) : M Exception A :=
  fun w => (r, w).

(** A call into the runtime: recorded, then it returns or raises. *)
Definition call {A : Type} (ev : event) (r : result A) : M Exception A :=
  fun w =>
    (r, {| tokenizer := tokenizer w; model := model w;
           calls := calls w ++ [ev] |}).

Definition set_model (m : option Model) : M Exception unit :=
  fun w => (inr tt, {| tokenizer := tokenizer w; model := m; calls := calls w |}).

Definition set_tokenizer (t : option Tokenizer) : M Exception unit :=
  fun w => (inr tt, {| tokenizer := t; model := model w; calls := calls w |}).

Declare Scope py_scope.
Delimit Scope py_scope with py.
Notation "x <- c ;; k" := (bind c (fun x => k))
  (at level 61, c at next level, right associativity) : py_scope.
Notation "c ;;; k" := (bind c (fun _ => k))
  (at level 61, right associativity) : py_scope.

(** The same sequencing for code without globals. *)
Definition rbind {A B : Type} (r : result A) (k : A -> result B) : result B :=
  match r with
  | inl e => inl e
  | inr a => k a
  end.

Notation "x <~ r ;; k" := (rbind r (fun x => k))
  (at level 61, r at next level, right associativity) : py_scope.

Open Scope py_scope.

(* ================================================================= *)
(** ** [app.py] *)

Module App.

Definition MODEL_PATH : str := lit "./gemma2-finetuned".
Definition device : str := lit "cpu".

(** The line feed of the prompt template. *)
Definition nl : str := [10%N].

(** The globals at import time: [tokenizer = None], [model = None]. *)
Definition initial : World :=
  {| tokenizer := None; model := None; calls := [] |}.

(** *** Request and response models *)

Module QuestionRequest.
Record t := {
  question : str;
  max_tokens : option Z;
  temperature : option float;
  top_k : option Z;
  top_p : option float;
  repetition_penalty : option float
}.
End QuestionRequest.

Module AnswerResponse.
Record t := {
  question : str;
  answer : str;
  full_output : str;
  model_path : str;
  device : str
}.
End AnswerResponse.

Module HealthResponse.
Record t := {
  status : str;
  model_loaded : bool;
  device : str
}.
End HealthResponse.

(** A key of the JSON body of a request: left out, or given with a value
    of the field's type ([None] is JSON [null], which an [Optional] field
    accepts). *)
Inductive field (A : Type) : Type :=
| Omitted
| Supplied (v : option A).
Arguments Omitted {A}.
Arguments Supplied {A} v.

Module Body.
Record t := {
  question : field str;
  max_tokens : field Z;
  temperature : field float;
  top_k : field Z;
  top_p : field float;
  repetition_penalty : field float
}.
End Body.

(** A field declared [Optional[T] = d]. *)
Definition with_default {A : Type} (d : A) (f : field A) : option A :=
  match f with
  | Omitted => Some d
  | Supplied v => v
  end.

(** Building a [QuestionRequest] from a body: [question] is required and
    is a [str]; the other fields carry the defaults of the class. *)
Definition model_validate (b : Body.t) : option QuestionRequest.t :=
  match Body.question b with
  | Supplied (Some q) =>
      Some {| QuestionRequest.question := q;
              QuestionRequest.max_tokens := with_default 120%Z (Body.max_tokens b);
              QuestionRequest.temperature := with_default 0.3%float (Body.temperature b);
              QuestionRequest.top_k := with_default 40%Z (Body.top_k b);
              QuestionRequest.top_p := with_default 0.8%float (Body.top_p b);
              QuestionRequest.repetition_penalty :=
                with_default 1.8%float (Body.repetition_penalty b) |}
  | _ => None
  end.

(** *** [load_model] *)

Definition load_model (L : Loader) : M Exception unit :=
  try_except
    (lift (import_peft L) ;;;
     let hf_token := environ L "HF_TOKEN" in
     let cache_dir :=
       match environ L "HF_HOME" with
       | Some d => d
       | None => lit "/tmp/hf_cache"
       end in
     base_model <-
       lift (AutoModelForCausalLM_from_pretrained L (lit "google/gemma-2b")
               hf_token cache_dir) ;;
     m <- lift (PeftModel_from_pretrained L base_model MODEL_PATH) ;;
     set_model (Some m) ;;;
     t <- lift (AutoTokenizer_from_pretrained L (lit "google/gemma-2b")
                  hf_token cache_dir) ;;
     set_tokenizer (Some t) ;;;
     m' <- lift (model_to L m device) ;;
     set_model (Some m') ;;;
     lift (model_eval L m') ;;;
     ret tt)
    (fun e => raise e).

(** *** [GET /health] *)

Definition health_check (w : World) : HealthResponse.t :=
  {| HealthResponse.status :=
       match model w with
       | Some _ => lit "healthy"
       | None => lit "model_not_loaded"
       end;
     HealthResponse.model_loaded :=
       match model w with
       | Some _ => true
       | None => false
       end;
     HealthResponse.device := device |}.

(** *** [POST /predict] *)

Record HTTPException := { status_code : Z; detail : str }.

(** The extraction of the answer from the decoded text (the lines after
    the decoding, in [predict]). *)
Definition answer_only (full_output : str) : result str :=
  if contains (lit "답변:") full_output then
    after <~ getitem (split (lit "답변:") 1 full_output) 1 ;;
    let answer_only := strip after in
    answer_only <~
      (if contains (lit "질문:") answer_only then
         before <~ getitem (split (lit "질문:") 1 answer_only) 0 ;;
         inr (strip before)
       else inr answer_only) ;;
    if contains (lit "<") answer_only then
      before <~ getitem (split (lit "<") 1 answer_only) 0 ;;
      inr (strip before)
    else inr answer_only
  else inr full_output.

(** The keyword arguments [predict] passes to [model.generate]. *)
Definition generate_args (request : QuestionRequest.t) (tokenizer : Tokenizer)
    (inputs : BatchEncoding) : Generate.Args :=
  {| Generate.inputs := inputs;
     Generate.max_new_tokens := QuestionRequest.max_tokens request;
     Generate.temperature := QuestionRequest.temperature request;
     Generate.top_k := QuestionRequest.top_k request;
     Generate.top_p := QuestionRequest.top_p request;
     Generate.do_sample := true;
     Generate.repetition_penalty := QuestionRequest.repetition_penalty request;
     Generate.no_repeat_ngram_size := 4%Z;
     Generate.eos_token_id := eos_token_id tokenizer;
     Generate.pad_token_id := pad_token_id tokenizer |}.

Definition prompt_of (question : str) : str :=
  lit "질문: " ++ question ++ nl ++ lit "답변:".

Definition predict (request : QuestionRequest.t)
  : M HTTPException AnswerResponse.t :=
  fun w =>
    match model w, tokenizer w with
    | Some model, Some tokenizer =>
        try_except
          (let prompt := prompt_of (QuestionRequest.question request) in
           inputs <- call (CallTokenizer prompt) (tok_call tokenizer prompt) ;;
           inputs <- call (CallTo inputs device)
                       (encoding_to tokenizer inputs device) ;;
           let args := generate_args request tokenizer inputs in
           outputs <- call (CallGenerate args) (generate model args) ;;
           ids <- lift (outputs_getitem model outputs 0) ;;
           full_output <- call (CallDecode ids) (tok_decode tokenizer ids) ;;
           answer <- lift (answer_only full_output) ;;
           ret {| AnswerResponse.question := QuestionRequest.question request;
                  AnswerResponse.answer := answer;
                  AnswerResponse.full_output := full_output;
                  AnswerResponse.model_path := MODEL_PATH;
                  AnswerResponse.device := device |})
          (fun e =>
             raise {| status_code := 500;
                      detail := lit "답변 생성 중 오류 발생: " ++ message e |})
          w
    | _, _ =>
        raise {| status_code := 503;
                 detail := lit "모델이 로드되지 않았습니다" |} w
    end.

(** *** The route: body validation, handler, HTTP status *)

(** The body of an answer is JSON sent as UTF-8, and a [str] holding a
    surrogate code point (U+D800 to U+DFFF) has no UTF-8 encoding. *)
Definition encodable (s : str) : bool :=
  forallb (fun c => negb ((55296 <=? c) && (c <=? 57343))%N) s.

Definition serialisable (a : AnswerResponse.t) : bool :=
  encodable (AnswerResponse.question a)
  && encodable (AnswerResponse.answer a)
  && encodable (AnswerResponse.full_output a)
  && encodable (AnswerResponse.model_path a)
  && encodable (AnswerResponse.device a).

(** What the client receives: the JSON of the response, the JSON of an
    [HTTPException] with its status, the 422 of a body that does not
    validate, or the plain 500 of the framework when the body to send
    cannot be encoded. *)
Inductive Response : Type :=
| Json (status : Z) (body : AnswerResponse.t)
| Error (status : Z) (detail : str)
| Unprocessable
| InternalServerError.

Definition status_of (r : Response) : Z :=
  match r with
  | Json s _ => s
  | Error s _ => s
  | Unprocessable => 422
  | InternalServerError => 500
  end.

Definition post_predict (b : Body.t) (w : World) : Response * World :=
  match model_validate b with
  | None => (Unprocessable, w)
  | Some request =>
      match predict request w with
      | (inr a, w') =>
          if serialisable a then (Json 200 a, w')
          else (InternalServerError, w')
      | (inl e, w') =>
          if encodable (detail e) then (Error (status_code e) (detail e), w')
          else (InternalServerError, w')
      end
  end.

End App.

(* ================================================================= *)
(** ** [test_local.py] *)

Module TestLocal.

(** The extraction of the answer, in [ask_question]. *)
Definition answer_only (full_output : str) : result str :=
  if contains (lit "답변:") full_output then
    after <~ getitem (split (lit "답변:") 1 full_output) 1 ;;
    let answer_only := strip after in
    answer_only <~
      (if contains (lit "질문:") answer_only then
         before <~ getitem (split (lit "질문:") 1 answer_only) 0 ;;
         inr (strip before)
       else inr answer_only) ;;
    if contains (lit "<") answer_only then
      before <~ getitem (split (lit "<") 1 answer_only) 0 ;;
      inr (strip before)
    else inr answer_only
  else inr full_output.

(** [ask_question(model, tokenizer, question, max_tokens, temperature)];
    the two last arguments default to [120] and [0.3].  It returns the pair
    of the answer and the decoded text, and on an exception the pair of a
    failure text and the empty string. *)
Definition ask_question (model : Model) (tokenizer : Tokenizer) (question : str)
    (max_tokens : Z) (temperature : float) : World -> (str * str) * World :=
  fun w =>
    match
      (let prompt := lit "질문: " ++ question ++ [10%N] ++ lit "답변:" in
       inputs <- call (CallTokenizer prompt) (tok_call tokenizer prompt) ;;
       device <- lift (parameters_device model) ;;
       inputs <- call (CallTo inputs device)
                   (encoding_to tokenizer inputs device) ;;
       let args :=
         {| Generate.inputs := inputs;
            Generate.max_new_tokens := Some max_tokens;
            Generate.temperature := Some temperature;
            Generate.top_k := Some 40%Z;
            Generate.top_p := Some 0.8%float;
            Generate.do_sample := true;
            Generate.repetition_penalty := Some 1.8%float;
            Generate.no_repeat_ngram_size := 4%Z;
            Generate.eos_token_id := eos_token_id tokenizer;
            Generate.pad_token_id := pad_token_id tokenizer |} in
       outputs <- call (CallGenerate args) (generate model args) ;;
       ids <- lift (outputs_getitem model outputs 0) ;;
       full_output <- call (CallDecode ids) (tok_decode tokenizer ids) ;;
       answer <- lift (answer_only full_output) ;;
       ret (answer, full_output)) w
    with
    | (inr p, w') => (p, w')
    | (inl e, w') => ((lit "❌ 답변 생성 실패: " ++ message e, []), w')
    end.

(** What [load_local_model] reaches outside the process: [os.path.exists],
    the three [from_pretrained] loaders (here without token and cache
    directory) and [model.eval]. *)
Record LocalLoader := {
  path_exists : str -> bool;
  local_AutoModelForCausalLM_from_pretrained : str -> result Model;
  local_PeftModel_from_pretrained : Model -> str -> result Model;
  local_AutoTokenizer_from_pretrained : str -> result Tokenizer;
  local_model_eval : Model -> result unit
}.

(** [load_local_model()]: the pair of the model and the tokenizer, or
    [(None, None)] when the adapter directory is missing or anything
    raises.  The last step is the device query of the final message. *)
Definition load_local_model (L : LocalLoader)
  : option Model * option Tokenizer :=
  match
    (let model_path := lit "./gemma2-finetuned" in
     if negb (path_exists L model_path) then inr (None, None)
     else
       base_model <~
         local_AutoModelForCausalLM_from_pretrained L (lit "google/gemma-2b") ;;
       model <~ local_PeftModel_from_pretrained L base_model model_path ;;
       tokenizer <~
         local_AutoTokenizer_from_pretrained L (lit "google/gemma-2b") ;;
       evaluated <~ local_model_eval L model ;;
       shown <~ parameters_device model ;;
       inr (Some model, Some tokenizer))
  with
  | inr loaded => loaded
  | inl e => (None, None)
  end.

(** The questions of [test_local_model]. *)
Definition test_questions : list str :=
  [lit "오답노트는 어떻게 정리할까요?"].

(** The loop of [test_local_model] over the questions: each is asked with
    the default [max_tokens] and [temperature]; after an answer that does
    not start with the failure sign the device of the model is queried for
    the message, outside any [try]. *)
Fixpoint ask_each (model : Model) (tokenizer : Tokenizer) (questions : list str)
    (w : World) : result unit * World :=
  match questions with
  | [] => (inr tt, w)
  | question :: rest =>
      let (returned, w') :=
        ask_question model tokenizer question 120%Z 0.3%float w in
      let (answer, full_output) := returned in
      if startswith (lit "❌") answer then ask_each model tokenizer rest w'
      else
        match parameters_device model with
        | inl e => (inl e, w')
        | inr shown => ask_each model tokenizer rest w'
        end
  end.

(** [test_local_model()]: [False] when the model did not load, [True] once
    every question was asked. *)
Definition test_local_model (L : LocalLoader) (w : World)
  : result bool * World :=
  match load_local_model L with
  | (Some model, Some tokenizer) =>
      match ask_each model tokenizer test_questions w with
      | (inr _, w') => (inr true, w')
      | (inl e, w') => (inl e, w')
      end
  | _ => (inr false, w)
  end.

End TestLocal.

(* ================================================================= *)
(** ** [test_huggingface.py] *)

Module TestHuggingface.

(** A JSON value. *)
Inductive json : Type :=
| JNull
| JBool (b : bool)
| JInt (n : Z)
| JFloat (x : float)
| JStr (s : str)
| JList (items : list json)
| JObject (members : list (str * json)).

(** What a call of [requests] raises: a [Timeout], another
    [RequestException], or an exception of neither class. *)
Inductive raised : Type :=
| Timeout (e : Exception)
| RequestException (e : Exception)
| Uncaught (e : Exception).

(** The response of [requests.post]: [json] is the outcome of
    [response.json()]. *)
Record Response := {
  status_code : Z;
  json_body : raised + json;
  text : str
}.

(** What the script does to the outside. *)
Inductive effect : Type :=
| Post (url : str) (payload : json) (timeout : Z)
| Sleep (seconds : Z).

Definition base_url : str :=
  lit "https://csmart-ai-faq-finetuning.hf.space/predict".

Definition test_questions : list str :=
  [lit "오답노트는 어떻게 정리할까요?"].

Definition payload (question : str) : json :=
  JObject [(lit "question", JStr question);
           (lit "max_tokens", JInt 80);
           (lit "temperature", JFloat 0.3%float)].

Definition str_eqb (a b : str) : bool :=
  (List.length a =? List.length b) && startswith a b.

(** The value of the last member named [key], as a parsed object has
    it. *)
Fixpoint lookup (key : str) (members : list (str * json)) : option json :=
  match members with
  | [] => None
  | (k, v) :: rest =>
      match lookup key rest with
      | Some v' => Some v'
      | None => if str_eqb k key then Some v else None
      end
  end.

Definition type_name (data : json) : str :=
  match data with
  | JNull => lit "NoneType"
  | JBool _ => lit "bool"
  | JInt _ => lit "int"
  | JFloat _ => lit "float"
  | JStr _ => lit "str"
  | JList _ => lit "list"
  | JObject _ => lit "dict"
  end.

(** [data.get(key, default)]: only a parsed object has [get]. *)
Definition get (data : json) (key : str) (default : json) : raised + json :=
  match data with
  | JObject members =>
      inr (match lookup key members with
           | Some v => v
           | None => default
           end)
  | _ =>
      inl (Uncaught
             {| message :=
                  lit "'" ++ type_name data
                  ++ lit "' object has no attribute 'get'" |})
  end.

(** A line the script prints, by the [print] that writes it and the
    values it formats. *)
Inductive line : Type :=
| Rule
| Title
| Address (url : str)
| Starting
| Header (i total : nat)
| Asked (question : str)
| Waiting
| Answer (shown : json)
| CallFailed (status : Z)
| ErrorText (body : str)
| TimedOut
| RequestFailed (e : Exception)
| ClosingRule
| Finished (success_count total : nat)
| Working
| NotWorking.

(** The script against its surroundings: [print] writes a line or raises
    (an exception that is no [RequestException]: an encoding or an I/O
    error of the output stream), [post] is [requests.post]. *)
Record Surroundings := {
  print : line -> result unit;
  post : str -> json -> Z -> raised + Response
}.

(** Code of the script: from the effects so far, a value or what was
    raised, and the effects then. *)
Definition Script (E A : Type) : Type :=
  list effect -> (E + A) * list effect.

Definition done_with {E A : Type} (a : A) : Script E A :=
  fun done => (inr a, done).

Definition and_then {E A B : Type} (c : Script E A) (k : A -> Script E B)
  : Script E B :=
  fun done =>
    match c done with
    | (inl e, done') => (inl e, done')
    | (inr a, done') => k a done'
    end.

(** [print] outside and inside the [try]. *)
Definition say (env : Surroundings) (l : line) : Script Exception unit :=
  fun done => (print env l, done).

Definition say_in_try (env : Surroundings) (l : line) : Script raised unit :=
  fun done =>
    (match print env l with
     | inl e => inl (Uncaught e)
     | inr u => inr u
     end, done).

Definition requests_post (env : Surroundings) (url : str) (body : json)
    (timeout : Z) : Script raised Response :=
  fun done => (post env url body timeout, done ++ [Post url body timeout]).

Definition time_sleep (seconds : Z) : Script Exception unit :=
  fun done => (inr tt, done ++ [Sleep seconds]).

Definition in_try {A : Type} (r : raised + A) : Script raised A :=
  fun done => (r, done).

(** The [try] block for one question: the new count of successes, or what
    was raised. *)
Definition attempt (env : Surroundings) (question : str) (success_count : nat)
  : Script raised nat :=
  and_then (say_in_try env Waiting) (fun _ =>
  and_then (requests_post env base_url (payload question) 120%Z) (fun response =>
  if (status_code response =? 200)%Z then
    and_then (in_try (json_body response)) (fun data =>
    and_then (in_try (get data (lit "answer") data)) (fun shown =>
    and_then (say_in_try env (Answer shown)) (fun _ =>
    done_with (S success_count))))
  else
    and_then (say_in_try env (CallFailed (status_code response))) (fun _ =>
    and_then (say_in_try env (ErrorText (text response))) (fun _ =>
    done_with success_count)))).

(** The [try] with its two [except] clauses: the count after the
    question, or the exception that neither clause caught or that a
    [print] of a clause raised. *)
Definition guarded (env : Surroundings) (question : str) (success_count : nat)
  : Script Exception nat :=
  fun done =>
    match attempt env question success_count done with
    | (inr n, done') => (inr n, done')
    | (inl (Timeout _), done') =>
        and_then (say env TimedOut) (fun _ => done_with success_count) done'
    | (inl (RequestException e), done') =>
        and_then (say env (RequestFailed e)) (fun _ => done_with success_count)
          done'
    | (inl (Uncaught e), done') => (inl e, done')
    end.

(** The loop over [enumerate(test_questions, 1)], from index [i], with
    [total = len(test_questions)]. *)
Fixpoint ask_each (env : Surroundings) (total i : nat) (questions : list str)
    (success_count : nat) : Script Exception nat :=
  match questions with
  | [] => done_with success_count
  | question :: rest =>
      and_then (say env (Header i total)) (fun _ =>
      and_then (say env (Asked question)) (fun _ =>
      and_then (guarded env question success_count) (fun success_count =>
      and_then (if i <? total then time_sleep 2 else done_with tt) (fun _ =>
      ask_each env total (S i) rest success_count))))
  end.

(** [test_huggingface_api()]. *)
Definition test_huggingface_api (env : Surroundings) : Script Exception bool :=
  and_then (say env Rule) (fun _ =>
  and_then (say env Title) (fun _ =>
  and_then (say env Rule) (fun _ =>
  and_then (say env (Address base_url)) (fun _ =>
  and_then (say env Starting) (fun _ =>
  and_then (ask_each env (List.length test_questions) 1 test_questions 0)
    (fun success_count =>
  and_then (say env ClosingRule) (fun _ =>
  and_then (say env (Finished success_count (List.length test_questions)))
    (fun _ =>
  and_then (say env Rule) (fun _ =>
  and_then (if 0 <? success_count then say env Working else say env NotWorking)
    (fun _ =>
  done_with (0 <? success_count))))))))))).

End TestHuggingface.

(* ================================================================= *)
(** ** Vocabulary of the statements *)

(** [sep] occurs in [s]. *)
Definition occurs (sep s : str) : Prop :=
  exists pre post, s = pre ++ sep ++ post.

(** The leftmost occurrence of [sep] in [s] has [pre] before it and [post]
    after it. *)
Definition first_occurrence (sep s pre post : str) : Prop :=
  s = pre ++ sep ++ post
  /\ forall pre' post',
       s = pre' ++ sep ++ post' -> List.length pre <= List.length pre'.

(** A separator that neither starts nor ends with a whitespace character. *)
Definition solid (sep : str) : Prop :=
  (exists h t, sep = h :: t /\ isspace h = false)
  /\ (exists i l, sep = i ++ [l] /\ isspace l = false).

(** One truncation step of the extraction: cut [a] at the leftmost [sep],
    keep what is before it, strip. *)
Definition truncate (sep a : str) : result str :=
  if contains sep a then
    before <~ getitem (split sep 1 a) 0 ;;
    inr (strip before)
  else inr a.

(** The three markers. *)
Definition answer_marker : str := lit "답변:".
Definition question_marker : str := lit "질문:".
Definition lt_marker : str := lit "<".

(** The post-marker content, cut at the leftmost question marker when there
    is one (not stripped). *)
Definition question_truncated (after t : str) : Prop :=
  (exists y, first_occurrence question_marker after t y)
  \/ (~ occurs question_marker after /\ t = after).

(** The two exceptions [predict] raises. *)
Definition not_loaded : App.HTTPException :=
  {| App.status_code := 503;
     App.detail := lit "모델이 로드되지 않았습니다" |}.

Definition generation_failed (e : Exception) : App.HTTPException :=
  {| App.status_code := 500;
     App.detail := lit "답변 생성 중 오류 발생: " ++ message e |}.

(** The world after further calls into the runtime. *)
Definition after_calls (w : World) (evs : list event) : World :=
  {| tokenizer := tokenizer w; model := model w; calls := calls w ++ evs |}.

(** How the runtime answers the calls [predict] makes for a request: the
    exception one of them raises or the decoded text, and the calls made
    up to there. *)
Inductive generation (t : Tokenizer) (m : Model)
    (request : App.QuestionRequest.t) : result str -> list event -> Prop :=
| tokenizing_raises e :
    tok_call t (App.prompt_of (App.QuestionRequest.question request)) = inl e ->
    generation t m request (inl e)
      [CallTokenizer (App.prompt_of (App.QuestionRequest.question request))]
| moving_raises i e :
    tok_call t (App.prompt_of (App.QuestionRequest.question request)) = inr i ->
    encoding_to t i App.device = inl e ->
    generation t m request (inl e)
      [CallTokenizer (App.prompt_of (App.QuestionRequest.question request));
       CallTo i App.device]
| generating_raises i i' e :
    tok_call t (App.prompt_of (App.QuestionRequest.question request)) = inr i ->
    encoding_to t i App.device = inr i' ->
    generate m (App.generate_args request t i') = inl e ->
    generation t m request (inl e)
      [CallTokenizer (App.prompt_of (App.QuestionRequest.question request));
       CallTo i App.device;
       CallGenerate (App.generate_args request t i')]
| indexing_raises i i' o e :
    tok_call t (App.prompt_of (App.QuestionRequest.question request)) = inr i ->
    encoding_to t i App.device = inr i' ->
    generate m (App.generate_args request t i') = inr o ->
    outputs_getitem m o 0 = inl e ->
    generation t m request (inl e)
      [CallTokenizer (App.prompt_of (App.QuestionRequest.question request));
       CallTo i App.device;
       CallGenerate (App.generate_args request t i')]
| decoding_raises i i' o ids e :
    tok_call t (App.prompt_of (App.QuestionRequest.question request)) = inr i ->
    encoding_to t i App.device = inr i' ->
    generate m (App.generate_args request t i') = inr o ->
    outputs_getitem m o 0 = inr ids ->
    tok_decode t ids = inl e ->
    generation t m request (inl e)
      [CallTokenizer (App.prompt_of (App.QuestionRequest.question request));
       CallTo i App.device;
       CallGenerate (App.generate_args request t i');
       CallDecode ids]
| decoded i i' o ids full_output :
    tok_call t (App.prompt_of (App.QuestionRequest.question request)) = inr i ->
    encoding_to t i App.device = inr i' ->
    generate m (App.generate_args request t i') = inr o ->
    outputs_getitem m o 0 = inr ids ->
    tok_decode t ids = inr full_output ->
    generation t m request (inr full_output)
      [CallTokenizer (App.prompt_of (App.QuestionRequest.question request));
       CallTo i App.device;
       CallGenerate (App.generate_args request t i');
       CallDecode ids].

(** The complete response for a decoded text and its extracted answer. *)
Definition answer_response (request : App.QuestionRequest.t)
    (answer full_output : str) : App.AnswerResponse.t :=
  {| App.AnswerResponse.question := App.QuestionRequest.question request;
     App.AnswerResponse.answer := answer;
     App.AnswerResponse.full_output := full_output;
     App.AnswerResponse.model_path := App.MODEL_PATH;
     App.AnswerResponse.device := App.device |}.

(** A request field outside the range the specification gives it:
    [max_tokens <= 0], [top_k <= 0], [temperature <= 0], or [top_p] not
    in (0, 1]. *)
Definition out_of_range (r : App.QuestionRequest.t) : bool :=
  match App.QuestionRequest.max_tokens r with
  | Some n => (n <=? 0)%Z
  | None => false
  end
  || match App.QuestionRequest.top_k r with
     | Some k => (k <=? 0)%Z
     | None => false
     end
  || match App.QuestionRequest.temperature r with
     | Some x => PrimFloat.leb x 0%float
     | None => false
     end
  || match App.QuestionRequest.top_p r with
     | Some p => negb (PrimFloat.ltb 0%float p && PrimFloat.leb p 1%float)
     | None => false
     end.

(** A 4xx status. *)
Definition client_error (status : Z) : bool :=
  ((400 <=? status) && (status <? 500))%Z.

(** How a field of the request follows from the body, for a field with
    default [d]. *)
Definition field_rule {A : Type} (d : A) (f : App.field A) (v : option A)
  : Prop :=
  (f = App.Omitted -> v = Some d)
  /\ (forall x, f = App.Supplied x -> v = x).

(** *** Stand-ins for the runtime, for the concrete instances *)

(** A tokenizer whose ids are the code points, and a model that appends a
    fixed continuation to the prompt. *)
Definition echo_tokenizer : Tokenizer :=
  {| tok_call := fun prompt => inr [("input_ids"%string, [map Z.of_N prompt])];
     encoding_to := fun inputs _ => inr inputs;
     tok_decode := fun ids => inr (map Z.to_N ids);
     eos_token_id := Some 1%Z;
     pad_token_id := Some 0%Z |}.

Definition echo_model (continuation : str) : Model :=
  {| generate := fun args =>
       inr (map (fun row => row ++ map Z.of_N continuation)
              (List.concat (map snd (Generate.inputs args))));
     outputs_getitem := fun outputs i => getitem outputs i;
     parameters_device := inr (lit "cpu") |}.

(** A model whose [generate] raises. *)
Definition failing_model (e : Exception) : Model :=
  {| generate := fun _ => inl e;
     outputs_getitem := fun outputs i => getitem outputs i;
     parameters_device := inr (lit "cpu") |}.

(** A loader whose tokenizer download raises after the base model and the
    adapter have loaded. *)
Definition tokenizer_failing_loader (m : Model) (e : Exception) : Loader :=
  {| environ := fun _ => None;
     import_peft := inr tt;
     AutoModelForCausalLM_from_pretrained := fun _ _ _ => inr m;
     PeftModel_from_pretrained := fun base _ => inr base;
     AutoTokenizer_from_pretrained := fun _ _ _ => inl e;
     model_to := fun m' _ => inr m';
     model_eval := fun _ => inr tt |}.

(** The globals once the model is loaded. *)
Definition ready (continuation : str) : World :=
  {| tokenizer := Some echo_tokenizer;
     model := Some (echo_model continuation);
     calls := [] |}.

(** A body with the question alone, and one with every numeric field out
    of range. *)
Definition question_only (q : str) : App.Body.t :=
  {| App.Body.question := App.Supplied (Some q);
     App.Body.max_tokens := App.Omitted;
     App.Body.temperature := App.Omitted;
     App.Body.top_k := App.Omitted;
     App.Body.top_p := App.Omitted;
     App.Body.repetition_penalty := App.Omitted |}.

Definition out_of_range_body : App.Body.t :=
  {| App.Body.question := App.Supplied (Some (lit "1+1?"));
     App.Body.max_tokens := App.Supplied (Some 0%Z);
     App.Body.temperature := App.Supplied (Some (-1)%float);
     App.Body.top_k := App.Supplied (Some (-3)%Z);
     App.Body.top_p := App.Supplied (Some 1.5%float);
     App.Body.repetition_penalty := App.Omitted |}.

(** The request that body is validated to. *)
Definition out_of_range_request : App.QuestionRequest.t :=
  {| App.QuestionRequest.question := lit "1+1?";
     App.QuestionRequest.max_tokens := Some 0%Z;
     App.QuestionRequest.temperature := Some (-1)%float;
     App.QuestionRequest.top_k := Some (-3)%Z;
     App.QuestionRequest.top_p := Some 1.5%float;
     App.QuestionRequest.repetition_penalty := Some 1.8%float |}.

(** *** The calls of [load_model] *)

(** The token and the cache directory [load_model] reads from the
    environment, and its two downloads with them. *)
Definition hf_token_of (L : Loader) : option str := environ L "HF_TOKEN".

Definition cache_dir_of (L : Loader) : str :=
  match environ L "HF_HOME" with
  | Some d => d
  | None => lit "/tmp/hf_cache"
  end.

Definition base_model_of (L : Loader) : result Model :=
  AutoModelForCausalLM_from_pretrained L (lit "google/gemma-2b")
    (hf_token_of L) (cache_dir_of L).

Definition tokenizer_of (L : Loader) : result Tokenizer :=
  AutoTokenizer_from_pretrained L (lit "google/gemma-2b")
    (hf_token_of L) (cache_dir_of L).

(** The globals with the given model and tokenizer. *)
Definition with_globals (w : World) (t : option Tokenizer) (m : option Model)
  : World :=
  {| tokenizer := t; model := m; calls := calls w |}.

(** The response of [/health] once a model is set. *)
Definition healthy : App.HealthResponse.t :=
  {| App.HealthResponse.status := lit "healthy";
     App.HealthResponse.model_loaded := true;
     App.HealthResponse.device := lit "cpu" |}.

(** A loader that answers each step with a fixed outcome. *)
Definition scripted_loader (imported : result unit) (base adapter : result Model)
    (tok : result Tokenizer) (moved : result Model) (evaluated : result unit)
  : Loader :=
  {| environ := fun _ => None;
     import_peft := imported;
     AutoModelForCausalLM_from_pretrained := fun _ _ _ => base;
     PeftModel_from_pretrained := fun _ _ => adapter;
     AutoTokenizer_from_pretrained := fun _ _ _ => tok;
     model_to := fun _ _ => moved;
     model_eval := fun _ => evaluated |}.

Definition scripted_local_loader (found : bool) (base adapter : result Model)
    (tok : result Tokenizer) (evaluated : result unit) : TestLocal.LocalLoader :=
  {| TestLocal.path_exists := fun _ => found;
     TestLocal.local_AutoModelForCausalLM_from_pretrained := fun _ => base;
     TestLocal.local_PeftModel_from_pretrained := fun _ _ => adapter;
     TestLocal.local_AutoTokenizer_from_pretrained := fun _ => tok;
     TestLocal.local_model_eval := fun _ => evaluated |}.

(** The four calls of a complete run of [predict]. *)
Definition full_run (request : App.QuestionRequest.t) (t : Tokenizer)
    (i i' : BatchEncoding) (ids : TokenIds) : list event :=
  [CallTokenizer (App.prompt_of (App.QuestionRequest.question request));
   CallTo i App.device;
   CallGenerate (App.generate_args request t i');
   CallDecode ids].

(** The failure pair of [ask_question]. *)
Definition ask_failed (e : Exception) : str * str :=
  (lit "❌ 답변 생성 실패: " ++ message e, []).

(** The request [ask_question] stands for. *)
Definition asked (question : str) (max_tokens : Z) (temperature : float)
  : App.QuestionRequest.t :=
  {| App.QuestionRequest.question := question;
     App.QuestionRequest.max_tokens := Some max_tokens;
     App.QuestionRequest.temperature := Some temperature;
     App.QuestionRequest.top_k := Some 40%Z;
     App.QuestionRequest.top_p := Some 0.8%float;
     App.QuestionRequest.repetition_penalty := Some 1.8%float |}.

(** The effects of the questions loop when no exception escapes: one POST
    per question, two seconds of sleep between two questions. *)
Fixpoint spaced_posts (questions : list str) : list TestHuggingface.effect :=
  match questions with
  | [] => []
  | question :: rest =>
      TestHuggingface.Post TestHuggingface.base_url
        (TestHuggingface.payload question) 120%Z
      :: match rest with
         | [] => []
         | _ :: _ => TestHuggingface.Sleep 2 :: spaced_posts rest
         end
  end.

(** The POST for a question is answered 200 with a JSON object. *)
Definition answered (post : str -> TestHuggingface.json -> Z
                            -> TestHuggingface.raised + TestHuggingface.Response)
    (question : str) : Prop :=
  exists response members,
    post TestHuggingface.base_url (TestHuggingface.payload question) 120%Z
    = inr response
    /\ TestHuggingface.status_code response = 200%Z
    /\ TestHuggingface.json_body response
       = inr (TestHuggingface.JObject members).

(** The same, decided. *)
Definition answeredb (post : str -> TestHuggingface.json -> Z
                             -> TestHuggingface.raised + TestHuggingface.Response)
    (question : str) : bool :=
  match post TestHuggingface.base_url (TestHuggingface.payload question) 120%Z
  with
  | inr response =>
      (TestHuggingface.status_code response =? 200)%Z
      && match TestHuggingface.json_body response with
         | inr (TestHuggingface.JObject _) => true
         | _ => false
         end
  | inl _ => false
  end.

(** An output stream that takes every line. *)
Definition quiet (env : TestHuggingface.Surroundings) : Prop :=
  forall l, TestHuggingface.print env l = inr tt.

(** Surroundings whose output stream takes every line. *)
Definition printing (post : str -> TestHuggingface.json -> Z
                            -> TestHuggingface.raised + TestHuggingface.Response)
  : TestHuggingface.Surroundings :=
  {| TestHuggingface.print := fun _ => inr tt;
     TestHuggingface.post := post |}.

(** A service that answers 200 with an answer holding a lone surrogate,
    and an output stream that cannot encode it. *)
Definition surrogate_response : TestHuggingface.Response :=
  {| TestHuggingface.status_code := 200;
     TestHuggingface.json_body :=
       inr (TestHuggingface.JObject
              [(lit "answer", TestHuggingface.JStr [55296%N])]);
     TestHuggingface.text := [] |}.

Definition surrogate_surroundings : TestHuggingface.Surroundings :=
  {| TestHuggingface.print :=
       fun l =>
         match l with
         | TestHuggingface.Answer _ =>
             inl {| message := lit "surrogates not allowed" |}
         | _ => inr tt
         end;
     TestHuggingface.post := fun _ _ _ => inr surrogate_response |}.

(* ================================================================= *)
(** ** Facts about the string operations *)

Section StringFacts.

Lemma startswith_app (p r : str) : startswith p (p ++ r) = true.
Proof.
  induction p as [|a p IH]; simpl.
  - reflexivity.
  - now rewrite N.eqb_refl, IH.
Qed.

Lemma startswith_true (p s : str) :
  startswith p s = true -> s = p ++ skipn (List.length p) s.
Proof.
  revert s; induction p as [|a p IH]; intros s H.
  - reflexivity.
  - destruct s as [|b s]; simpl in H; [discriminate|].
    apply andb_true_iff in H as [Hab Hps].
    apply N.eqb_eq in Hab; subst b.
    simpl. f_equal. now apply IH.
Qed.

Lemma contains_unfold (sep s : str) :
  contains sep s
  = startswith sep s
    || match s with
       | [] => false
       | _ :: s' => contains sep s'
       end.
Proof. destruct s; reflexivity. Qed.

Lemma cut_unfold (sep s : str) :
  cut sep s
  = if startswith sep s then Some ([], skipn (List.length sep) s)
    else
      match s with
      | [] => None
      | c :: s' =>
          match cut sep s' with
          | Some (a, b) => Some (c :: a, b)
          | None => None
          end
      end.
Proof. destruct s; reflexivity. Qed.

Lemma contains_occurs (sep s : str) :
  contains sep s = true <-> occurs sep s.
Proof.
  split.
  - induction s as [|c s IH]; rewrite contains_unfold; intros H.
    + rewrite orb_false_r in H. apply startswith_true in H.
      exists [], (skipn (List.length sep) []). exact H.
    + apply orb_true_iff in H as [H|H].
      * apply startswith_true in H.
        exists [], (skipn (List.length sep) (c :: s)). exact H.
      * destruct (IH H) as (pre & post & ->).
        exists (c :: pre), post. reflexivity.
  - intros (pre & post & ->).
    induction pre as [|c pre IH].
    + rewrite contains_unfold. simpl app. now rewrite startswith_app.
    + simpl app. rewrite contains_unfold. cbv iota beta.
      rewrite IH. apply orb_true_r.
Qed.

Lemma contains_false (sep s : str) :
  contains sep s = false <-> ~ occurs sep s.
Proof.
  rewrite <- contains_occurs. destruct (contains sep s); split; intros H.
  - discriminate.
  - now contradiction H.
  - discriminate.
  - reflexivity.
Qed.

Lemma cut_first (sep : str) (a b s : str) :
  first_occurrence sep s a b -> cut sep s = Some (a, b).
Proof.
  revert s; induction a as [|c a IH]; intros s [Hs Hmin]; subst s.
  - rewrite cut_unfold. simpl app. rewrite startswith_app.
    now rewrite skipn_app, Nat.sub_diag, skipn_all.
  - rewrite cut_unfold.
    destruct (startswith sep ((c :: a) ++ sep ++ b)) eqn:Hsw.
    + apply startswith_true in Hsw.
      specialize (Hmin [] _ Hsw). simpl in Hmin. lia.
    + simpl app. cbv iota beta.
      rewrite (IH (a ++ sep ++ b)); [reflexivity|].
      split; [reflexivity|].
      intros pre' post' Heq.
      specialize (Hmin (c :: pre') post').
      simpl in Hmin. rewrite Heq in Hmin. specialize (Hmin eq_refl). lia.
Qed.

Lemma cut_sound (sep : str) (s a b : str) :
  cut sep s = Some (a, b) -> first_occurrence sep s a b.
Proof.
  revert a b; induction s as [|c s IH]; intros a b; rewrite cut_unfold;
    destruct (startswith _ _) eqn:Hsw; intros H.
  - injection H as <- <-. apply startswith_true in Hsw.
    split; [exact Hsw | simpl; lia].
  - discriminate.
  - injection H as <- <-. apply startswith_true in Hsw.
    split; [exact Hsw | simpl; lia].
  - destruct (cut sep s) as [[a' b']|] eqn:Hcut; [|discriminate].
    injection H as <- <-.
    destruct (IH _ _ eq_refl) as [Hs Hmin].
    split.
    + simpl. now f_equal.
    + intros [|c' pre'] post' Heq.
      * simpl in Heq. rewrite Heq, startswith_app in Hsw. discriminate.
      * simpl in Heq. injection Heq as _ Heq.
        specialize (Hmin _ _ Heq). simpl. lia.
Qed.

Lemma split_once (sep s a b : str) :
  cut sep s = Some (a, b) -> split sep 1 s = [a; b].
Proof. intros H. simpl. now rewrite H. Qed.

Lemma lstrip_prefix (s : str) : exists ws, s = ws ++ lstrip s.
Proof.
  induction s as [|c s [ws IH]]; simpl.
  - now exists [].
  - destruct (isspace c).
    + exists (c :: ws). simpl. now f_equal.
    + now exists [].
Qed.

Lemma rstrip_suffix (s : str) : exists ws, s = rstrip s ++ ws.
Proof.
  unfold rstrip. destruct (lstrip_prefix (rev s)) as [ws H].
  exists (rev ws).
  rewrite <- rev_app_distr, <- H. now rewrite rev_involutive.
Qed.

Lemma strip_infix (s : str) : exists l r, s = l ++ strip s ++ r.
Proof.
  destruct (lstrip_prefix s) as [l Hl].
  destruct (rstrip_suffix (lstrip s)) as [r Hr].
  exists l, r. unfold strip. now rewrite <- Hr.
Qed.

Lemma lstrip_app_nonspace (x y : str) (c : char) :
  isspace c = false -> lstrip (x ++ c :: y) = lstrip x ++ c :: y.
Proof.
  intros Hc. induction x as [|a x IH]; simpl.
  - now rewrite Hc.
  - destruct (isspace a); [exact IH | reflexivity].
Qed.

Lemma rstrip_app_nonspace (x y : str) (c : char) :
  isspace c = false -> rstrip (x ++ c :: y) = x ++ c :: rstrip y.
Proof.
  intros Hc. unfold rstrip.
  rewrite rev_app_distr. simpl rev. rewrite <- app_assoc. simpl app.
  rewrite lstrip_app_nonspace by exact Hc.
  rewrite rev_app_distr. simpl rev.
  rewrite rev_involutive, <- app_assoc. reflexivity.
Qed.

Lemma lstrip_idem (s : str) : lstrip (lstrip s) = lstrip s.
Proof.
  induction s as [|c s IH]; simpl.
  - reflexivity.
  - destruct (isspace c) eqn:Hc; [exact IH|]. simpl. now rewrite Hc.
Qed.

Lemma strip_lstrip (s : str) : strip (lstrip s) = strip s.
Proof. unfold strip. now rewrite lstrip_idem. Qed.

Lemma occurs_strip (sep s : str) : occurs sep (strip s) -> occurs sep s.
Proof.
  intros (pre & post & H).
  destruct (strip_infix s) as (l & r & Hs).
  exists (l ++ pre), (post ++ r).
  rewrite Hs at 1. rewrite H. now rewrite <- !app_assoc.
Qed.

Lemma contains_strip_false (sep s : str) :
  contains sep s = false -> contains sep (strip s) = false.
Proof.
  rewrite !contains_false. intros H Hs. apply H. now apply occurs_strip.
Qed.

End StringFacts.

(* ================================================================= *)
(** ** The truncation steps *)

Section Truncation.

Lemma solid_question_marker : solid question_marker.
Proof.
  split.
  - exists 51656%N, [47928; 58]%N. split; reflexivity.
  - exists [51656; 47928]%N, 58%N. split; reflexivity.
Qed.

Lemma solid_lt_marker : solid lt_marker.
Proof.
  split.
  - exists 60%N, []. split; reflexivity.
  - exists [], 60%N. split; reflexivity.
Qed.

Lemma strip_around (sep x y : str) :
  solid sep -> strip (x ++ sep ++ y) = lstrip x ++ sep ++ rstrip y.
Proof.
  intros [(h & t & Hh & Hsp) (i & l & Hl & Hsp')].
  assert (L : forall z, lstrip (z ++ sep ++ y) = lstrip z ++ sep ++ y).
  { intros z. rewrite Hh. simpl. now apply lstrip_app_nonspace. }
  assert (R : forall z w, rstrip (z ++ sep ++ w) = z ++ sep ++ rstrip w).
  { intros z w. rewrite Hl.
    replace (z ++ (i ++ [l]) ++ w) with ((z ++ i) ++ l :: w)
      by (now rewrite <- !app_assoc).
    rewrite rstrip_app_nonspace by exact Hsp'.
    now rewrite <- !app_assoc. }
  unfold strip. now rewrite L, R.
Qed.

Lemma first_occurrence_strip (sep s x y : str) :
  solid sep ->
  first_occurrence sep s x y ->
  first_occurrence sep (strip s) (lstrip x) (rstrip y).
Proof.
  intros Hsolid [Hs Hmin]. subst s.
  split; [now apply strip_around|].
  intros pre' post' Heq.
  rewrite strip_around in Heq by exact Hsolid.
  destruct (lstrip_prefix x) as [ws Hx].
  destruct (rstrip_suffix y) as [ws' Hy].
  specialize (Hmin (ws ++ pre') (post' ++ ws')).
  assert (Hlen : List.length x <= List.length (ws ++ pre')).
  { apply Hmin.
    rewrite Hx at 1. rewrite Hy at 1.
    rewrite <- !app_assoc. f_equal.
    rewrite (app_assoc sep), (app_assoc (lstrip x)), Heq.
    now rewrite <- !app_assoc. }
  rewrite Hx in Hlen at 1. rewrite !length_app in Hlen. lia.
Qed.

Lemma truncate_first (sep s x y : str) :
  solid sep ->
  first_occurrence sep s x y ->
  truncate sep (strip s) = inr (strip x).
Proof.
  intros Hsolid Hfirst.
  pose proof (first_occurrence_strip _ _ _ _ Hsolid Hfirst) as Hst.
  unfold truncate.
  assert (Hin : contains sep (strip s) = true).
  { apply contains_occurs. destruct Hst as [Heq _].
    exists (lstrip x), (rstrip y). exact Heq. }
  rewrite Hin, (split_once _ _ _ _ (cut_first _ _ _ _ Hst)). simpl.
  now rewrite strip_lstrip.
Qed.

Lemma truncate_absent (sep s : str) :
  contains sep s = false -> truncate sep (strip s) = inr (strip s).
Proof.
  intros H. unfold truncate. now rewrite (contains_strip_false _ _ H).
Qed.

(** With the answer marker: the text after its leftmost occurrence is
    stripped, then cut at the question marker, then at ['<']. *)
Lemma answer_only_marker (text pre after : str) :
  first_occurrence answer_marker text pre after ->
  App.answer_only text
  = (a <~ truncate question_marker (strip after) ;; truncate lt_marker a).
Proof.
  intros Hfirst. unfold App.answer_only. fold answer_marker.
  assert (Hin : contains answer_marker text = true).
  { apply contains_occurs. destruct Hfirst as [Heq _].
    exists pre, after. exact Heq. }
  rewrite Hin.
  rewrite (split_once _ _ _ _ (cut_first _ _ _ _ Hfirst)).
  reflexivity.
Qed.

(** What the question-marker step leaves is the stripped
    question-truncated content. *)
Lemma truncate_question (after t : str) :
  question_truncated after t ->
  truncate question_marker (strip after) = inr (strip t).
Proof.
  intros [[y Hfirst] | [Habs ->]].
  - exact (truncate_first _ _ _ _ solid_question_marker Hfirst).
  - apply truncate_absent. now apply contains_false.
Qed.

End Truncation.

(* ================================================================= *)
(** ** The answer extraction *)

Section Extraction.

Lemma cut_found (sep s : str) :
  contains sep s = true -> exists a b, cut sep s = Some (a, b).
Proof.
  induction s as [|c s IH]; rewrite contains_unfold, cut_unfold;
    destruct (startswith sep _); simpl; intros H;
    try discriminate; eauto.
  destruct (IH H) as (a & b & ->). eauto.
Qed.

Lemma truncate_total (sep a : str) : exists r, truncate sep a = inr r.
Proof.
  unfold truncate. destruct (contains sep a) eqn:Hin; [|eauto].
  destruct (cut_found _ _ Hin) as (x & y & Hcut).
  rewrite (split_once _ _ _ _ Hcut). simpl. eauto.
Qed.

(** The extraction never raises. *)
Lemma answer_only_total (full_output : str) :
  exists answer, App.answer_only full_output = inr answer.
Proof.
  destruct (contains answer_marker full_output) eqn:Hin.
  - destruct (cut_found _ _ Hin) as (pre & after & Hcut).
    rewrite (answer_only_marker _ _ _ (cut_sound _ _ _ _ Hcut)).
    destruct (truncate_total question_marker (strip after)) as [a ->].
    simpl. apply truncate_total.
  - unfold App.answer_only. fold answer_marker. rewrite Hin. eauto.
Qed.

End Extraction.

(** C2: when the text holds the answer marker and what follows its leftmost
    occurrence holds neither the question marker nor ['<'], the extraction
    returns that content with the whitespace at both ends stripped. *)
Theorem answer_plain (text pre after : str) :
  first_occurrence answer_marker text pre after ->
  ~ occurs question_marker after ->
  ~ occurs lt_marker after ->
  App.answer_only text = inr (strip after).
Proof.
  intros Hfirst Hq Hlt.
  rewrite (answer_only_marker _ _ _ Hfirst).
  rewrite truncate_absent by now apply contains_false.
  simpl. apply truncate_absent. now apply contains_false.
Qed.

Lemma answer_plain_witness :
  App.answer_only (lit "질문: 1+1?" ++ App.nl ++ lit "답변:  2입니다. ")
  = inr (lit "2입니다.").
Proof.
  apply (answer_plain
           (lit "질문: 1+1?" ++ App.nl ++ lit "답변:  2입니다. ")
           (lit "질문: 1+1?" ++ App.nl) (lit "  2입니다. ")).
  - apply cut_sound. vm_compute. reflexivity.
  - apply contains_false. vm_compute. reflexivity.
  - apply contains_false. vm_compute. reflexivity.
Defined.

(** C3, as the code has it: when the text holds the answer marker and the
    leftmost question marker of what follows has [x] before it, the
    extraction returns [x] stripped provided [x] holds no ['<']; when [x]
    holds a ['<'], it returns what is before the leftmost ['<'] of [x],
    stripped.  On the decoded text of the scenario the answer is
    "매일 복습하세요.". *)
Theorem answer_before_question :
  (forall text pre after x y : str,
      first_occurrence answer_marker text pre after ->
      first_occurrence question_marker after x y ->
      (~ occurs lt_marker x -> App.answer_only text = inr (strip x))
      /\ (forall x1 x2,
             first_occurrence lt_marker x x1 x2 ->
             App.answer_only text = inr (strip x1)))
  /\ App.answer_only
       (lit "질문: 오답노트는 어떻게 정리할까요?" ++ App.nl
        ++ lit "답변: 매일 복습하세요. 질문: 다음은?")
     = inr (lit "매일 복습하세요.").
Proof.
  split; [|vm_compute; reflexivity].
  intros text pre after x y Hfirst Hq.
  rewrite (answer_only_marker _ _ _ Hfirst).
  rewrite (truncate_first _ _ _ _ solid_question_marker Hq). simpl.
  split.
  - intros Hlt. apply truncate_absent. now apply contains_false.
  - intros x1 x2 Hlt. exact (truncate_first _ _ _ _ solid_lt_marker Hlt).
Qed.

Lemma answer_before_question_witness :
  App.answer_only (lit "답변: 매일 복습하세요. 질문: 다음은?")
  = inr (lit "매일 복습하세요.")
  /\ App.answer_only (lit "답변: a<b 질문: c") = inr (lit "a").
Proof.
  split.
  - apply (proj1 answer_before_question
             (lit "답변: 매일 복습하세요. 질문: 다음은?") []
             (lit " 매일 복습하세요. 질문: 다음은?")
             (lit " 매일 복습하세요. ") (lit " 다음은?")).
    + apply cut_sound. vm_compute. reflexivity.
    + apply cut_sound. vm_compute. reflexivity.
    + apply contains_false. vm_compute. reflexivity.
  - apply (proj1 answer_before_question
             (lit "답변: a<b 질문: c") [] (lit " a<b 질문: c")
             (lit " a<b ") (lit " c")) with (x1 := lit " a") (x2 := lit "b ").
    + apply cut_sound. vm_compute. reflexivity.
    + apply cut_sound. vm_compute. reflexivity.
    + apply cut_sound. vm_compute. reflexivity.
Defined.

(** C3 as stated fails: the content after the answer marker is
    " a<b 질문: c", of the form [x ++ question_marker ++ y] with [x] = " a<b ",
    and the extraction returns "a", not [x] stripped ("a<b"). *)
Lemma answer_before_question_counterexample :
  first_occurrence answer_marker (lit "답변: a<b 질문: c") []
    (lit " a<b 질문: c")
  /\ first_occurrence question_marker (lit " a<b 질문: c")
       (lit " a<b ") (lit " c")
  /\ App.answer_only (lit "답변: a<b 질문: c") = inr (lit "a")
  /\ App.answer_only (lit "답변: a<b 질문: c") <> inr (strip (lit " a<b ")).
Proof.
  split; [apply cut_sound; vm_compute; reflexivity|].
  split; [apply cut_sound; vm_compute; reflexivity|].
  split; [vm_compute; reflexivity|].
  intros H. vm_compute in H. discriminate H.
Qed.

(** C4: when the text holds the answer marker and the content after it, cut
    at its leftmost question marker if it has one, has [x] before its
    leftmost ['<'], the extraction returns [x] stripped: the cut at ['<']
    applies to what the cut at the question marker left. *)
Theorem answer_before_lt (text pre after t x z : str) :
  first_occurrence answer_marker text pre after ->
  question_truncated after t ->
  first_occurrence lt_marker t x z ->
  App.answer_only text = inr (strip x).
Proof.
  intros Hfirst Ht Hlt.
  rewrite (answer_only_marker _ _ _ Hfirst).
  rewrite (truncate_question _ _ Ht). simpl.
  exact (truncate_first _ _ _ _ solid_lt_marker Hlt).
Qed.

Lemma answer_before_lt_witness :
  App.answer_only (lit "답변: 복습 <b>매일</b> 질문: 다음 <i>은?")
  = inr (lit "복습").
Proof.
  apply (answer_before_lt
           (lit "답변: 복습 <b>매일</b> 질문: 다음 <i>은?") []
           (lit " 복습 <b>매일</b> 질문: 다음 <i>은?")
           (lit " 복습 <b>매일</b> ") (lit " 복습 ") (lit "b>매일</b> ")).
  - apply cut_sound. vm_compute. reflexivity.
  - left. exists (lit " 다음 <i>은?"). apply cut_sound. vm_compute. reflexivity.
  - apply cut_sound. vm_compute. reflexivity.
Defined.

(** C5, as the code has it: a text without the answer marker is returned
    as it is, whitespace at its ends included; nothing is cut at the
    question marker or at ['<']. *)
Theorem answer_without_marker (text : str) :
  ~ occurs answer_marker text ->
  App.answer_only text = inr text.
Proof.
  intros H. apply contains_false in H.
  unfold App.answer_only. fold answer_marker. now rewrite H.
Qed.

Lemma answer_without_marker_witness :
  App.answer_only (lit " 질문: 다음은? <b> ") = inr (lit " 질문: 다음은? <b> ").
Proof.
  apply (answer_without_marker (lit " 질문: 다음은? <b> ")).
  apply contains_false. vm_compute. reflexivity.
Defined.

(** C5 as stated fails: " a " holds no answer marker and is returned with
    its two spaces, not stripped. *)
Lemma answer_without_marker_counterexample :
  ~ occurs answer_marker (lit " a ")
  /\ App.answer_only (lit " a ") = inr (lit " a ")
  /\ App.answer_only (lit " a ") <> inr (strip (lit " a ")).
Proof.
  split; [apply contains_false; vm_compute; reflexivity|].
  split; [vm_compute; reflexivity|].
  intros H. vm_compute in H. discriminate H.
Qed.

(** C10: the extraction in [ask_question] of [test_local.py] and the one in
    [predict] of [app.py] return the same answer on every decoded text. *)
Theorem answer_only_same (full_output : str) :
  TestLocal.answer_only full_output = App.answer_only full_output.
Proof.
  unfold TestLocal.answer_only, App.answer_only.
  destruct (contains (lit "답변:") full_output); reflexivity.
Qed.

(* ================================================================= *)
(** ** The [/predict] handler *)

Section Predict.

Variable w : World.
Variable request : App.QuestionRequest.t.

Lemma predict_not_loaded :
  model w = None \/ tokenizer w = None ->
  App.predict request w = (inl not_loaded, w).
Proof.
  unfold App.predict.
  intros [H | H]; rewrite H; [|destruct (model w)]; reflexivity.
Qed.

Variables (m : Model) (t : Tokenizer).
Hypothesis model_loaded : model w = Some m.
Hypothesis tokenizer_loaded : tokenizer w = Some t.

(** Every run of the runtime calls is one of the six of [generation]. *)
Lemma generation_total : exists r evs, generation t m request r evs.
Proof.
  destruct (tok_call t (App.prompt_of (App.QuestionRequest.question request)))
    as [e|i] eqn:H1; [eauto using generation|].
  destruct (encoding_to t i App.device) as [e|i'] eqn:H2;
    [eauto using generation|].
  destruct (generate m (App.generate_args request t i')) as [e|o] eqn:H3;
    [eauto using generation|].
  destruct (outputs_getitem m o 0) as [e|ids] eqn:H4;
    [eauto using generation|].
  destruct (tok_decode t ids) as [e|full] eqn:H5; eauto using generation.
Qed.

(** What [predict] returns and the world it leaves, by the run. *)
Lemma predict_loaded (r : result str) (evs : list event) :
  generation t m request r evs ->
  App.predict request w
  = (match r with
     | inl e => inl (generation_failed e)
     | inr full_output =>
         match App.answer_only full_output with
         | inl e => inl (generation_failed e)
         | inr answer => inr (answer_response request answer full_output)
         end
     end, after_calls w evs).
Proof.
  intros Hg. unfold App.predict. rewrite model_loaded, tokenizer_loaded.
  cbv beta zeta delta [try_except bind call lift ret raise].
  destruct Hg;
    repeat match goal with
           | H : _ = inl _ |- _ => rewrite H; clear H
           | H : _ = inr _ |- _ => rewrite H; clear H
           end;
    cbn [calls tokenizer model];
    try destruct (App.answer_only _);
    unfold after_calls; rewrite <- ?app_assoc; reflexivity.
Qed.

End Predict.

(* ================================================================= *)
(** ** The embedding at work *)

Example markers_code_points :
  answer_marker = [45813; 48320; 58]%N
  /\ question_marker = [51656; 47928; 58]%N
  /\ lt_marker = [60]%N.
Proof. repeat split. Qed.

Example split_leftmost :
  split (lit "ab") 1 (lit "xabyabz") = [lit "x"; lit "yabz"]
  /\ split (lit "ab") 1 (lit "xyz") = [lit "xyz"].
Proof. split; vm_compute; reflexivity. Qed.

(** U+3000 and U+00A0 are whitespace for [strip]. *)
Example strip_unicode_space : strip [12288; 97; 32; 98; 160; 10]%N = lit "a b".
Proof. vm_compute. reflexivity. Qed.

Example predict_ready_run :
  App.predict out_of_range_request (ready (lit " 2. 질문: 2+2?"))
  = (inr {| App.AnswerResponse.question := lit "1+1?";
            App.AnswerResponse.answer := lit "2.";
            App.AnswerResponse.full_output :=
              lit "질문: 1+1?" ++ App.nl ++ lit "답변: 2. 질문: 2+2?";
            App.AnswerResponse.model_path := lit "./gemma2-finetuned";
            App.AnswerResponse.device := lit "cpu" |},
     after_calls (ready (lit " 2. 질문: 2+2?"))
       [CallTokenizer (lit "질문: 1+1?" ++ App.nl ++ lit "답변:");
        CallTo [("input_ids"%string,
                 [map Z.of_N (lit "질문: 1+1?" ++ App.nl ++ lit "답변:")])]
          (lit "cpu");
        CallGenerate
          (App.generate_args out_of_range_request echo_tokenizer
             [("input_ids"%string,
               [map Z.of_N (lit "질문: 1+1?" ++ App.nl ++ lit "답변:")])]);
        CallDecode
          (map Z.of_N
             (lit "질문: 1+1?" ++ App.nl ++ lit "답변: 2. 질문: 2+2?"))]).
Proof. vm_compute. reflexivity. Qed.

Example ask_question_run :
  fst (TestLocal.ask_question (echo_model (lit " 2 <eos>")) echo_tokenizer
         (lit "1+1?") 120 0.3%float App.initial)
  = (lit "2", lit "질문: 1+1?" ++ App.nl ++ lit "답변: 2 <eos>")
  /\ fst (TestLocal.ask_question
            (failing_model {| message := lit "CUDA out of memory" |})
            echo_tokenizer (lit "1+1?") 120 0.3%float App.initial)
     = (lit "❌ 답변 생성 실패: CUDA out of memory", []).
Proof. split; vm_compute; reflexivity. Qed.

(** C1: while [model] or [tokenizer] is still [None], [predict] raises the
    503 exception and leaves the world as it was: no call into the
    tokenizer or the model is recorded and the globals are unchanged; the
    route answers 503. *)
Theorem predict_unavailable (w : World) (request : App.QuestionRequest.t) :
  model w = None \/ tokenizer w = None ->
  App.predict request w = (inl not_loaded, w)
  /\ (forall b,
         App.model_validate b = Some request ->
         App.post_predict b w
         = (App.Error 503 (lit "모델이 로드되지 않았습니다"), w)).
Proof.
  intros H. pose proof (predict_not_loaded w request H) as Hp.
  split; [exact Hp|].
  intros b Hb. unfold App.post_predict. rewrite Hb, Hp.
  replace (App.encodable (App.detail not_loaded)) with true
    by (vm_compute; reflexivity).
  reflexivity.
Qed.

Lemma predict_unavailable_witness :
  App.post_predict (question_only (lit "오답노트는 어떻게 정리할까요?"))
    App.initial
  = (App.Error 503 (lit "모델이 로드되지 않았습니다"), App.initial).
Proof.
  refine (proj2 (predict_unavailable App.initial _ (or_introl eq_refl))
            (question_only (lit "오답노트는 어떻게 정리할까요?")) eq_refl).
Defined.

(** C6: a body with the question alone gives the request
    [max_tokens = 120], [temperature = 0.3], [top_k = 40], [top_p = 0.8],
    [repetition_penalty = 1.8], and these are the values passed to
    [model.generate]; in every accepted body an omitted field takes its
    default and a supplied field its supplied value. *)
Theorem question_only_defaults :
  (forall q : str,
      App.model_validate (question_only q)
      = Some {| App.QuestionRequest.question := q;
                App.QuestionRequest.max_tokens := Some 120%Z;
                App.QuestionRequest.temperature := Some 0.3%float;
                App.QuestionRequest.top_k := Some 40%Z;
                App.QuestionRequest.top_p := Some 0.8%float;
                App.QuestionRequest.repetition_penalty := Some 1.8%float |})
  /\ (forall (q : str) (r : App.QuestionRequest.t) (t : Tokenizer)
        (inputs : BatchEncoding),
         App.model_validate (question_only q) = Some r ->
         App.generate_args r t inputs
         = {| Generate.inputs := inputs;
              Generate.max_new_tokens := Some 120%Z;
              Generate.temperature := Some 0.3%float;
              Generate.top_k := Some 40%Z;
              Generate.top_p := Some 0.8%float;
              Generate.do_sample := true;
              Generate.repetition_penalty := Some 1.8%float;
              Generate.no_repeat_ngram_size := 4%Z;
              Generate.eos_token_id := eos_token_id t;
              Generate.pad_token_id := pad_token_id t |})
  /\ (forall (b : App.Body.t) (r : App.QuestionRequest.t),
         App.model_validate b = Some r ->
         App.Body.question b = App.Supplied (Some (App.QuestionRequest.question r))
         /\ field_rule 120%Z (App.Body.max_tokens b)
              (App.QuestionRequest.max_tokens r)
         /\ field_rule 0.3%float (App.Body.temperature b)
              (App.QuestionRequest.temperature r)
         /\ field_rule 40%Z (App.Body.top_k b) (App.QuestionRequest.top_k r)
         /\ field_rule 0.8%float (App.Body.top_p b)
              (App.QuestionRequest.top_p r)
         /\ field_rule 1.8%float (App.Body.repetition_penalty b)
              (App.QuestionRequest.repetition_penalty r)).
Proof.
  split; [reflexivity|]. split.
  - intros q r t inputs H. injection H as <-. reflexivity.
  - intros b r. unfold App.model_validate.
    destruct (App.Body.question b) as [|[q|]] eqn:Hq; try discriminate.
    intros H. injection H as <-. cbn.
    split; [reflexivity|].
    assert (rule : forall (A : Type) (d : A) (f : App.field A),
               field_rule d f (App.with_default d f)).
    { intros A d f. split.
      - now intros ->.
      - now intros x ->. }
    repeat split; apply rule.
Qed.

Lemma question_only_defaults_witness :
  field_rule 120%Z (App.Body.max_tokens out_of_range_body) (Some 0%Z)
  /\ field_rule 1.8%float (App.Body.repetition_penalty out_of_range_body)
       (Some 1.8%float).
Proof.
  pose proof (proj2 (proj2 question_only_defaults) out_of_range_body _ eq_refl)
    as (_ & Hmax & _ & _ & _ & Hrep).
  exact (conj Hmax Hrep).
Defined.

(** C7, as the code has it: with the model loaded, a request with
    out-of-range fields is not rejected.  The route never answers with a
    4xx status, and once the prompt is tokenized and moved to the device,
    [model.generate] is called with the request's values as they are.
    [predict] raises its 500 exactly when a call into the runtime raises,
    and returns the complete response otherwise; the status of the route
    is 200 when the runtime returned and the response can be encoded, and
    500 in every other case. *)
Theorem out_of_range_reaches_runtime (w : World) (m : Model) (t : Tokenizer)
    (request : App.QuestionRequest.t) :
  model w = Some m ->
  tokenizer w = Some t ->
  out_of_range request = true ->
  (forall b,
      App.model_validate b = Some request ->
      client_error (App.status_of (fst (App.post_predict b w))) = false)
  /\ (forall i i',
         tok_call t (App.prompt_of (App.QuestionRequest.question request))
         = inr i ->
         encoding_to t i App.device = inr i' ->
         exists args,
           In (CallGenerate args) (calls (snd (App.predict request w)))
           /\ Generate.max_new_tokens args = App.QuestionRequest.max_tokens request
           /\ Generate.temperature args = App.QuestionRequest.temperature request
           /\ Generate.top_k args = App.QuestionRequest.top_k request
           /\ Generate.top_p args = App.QuestionRequest.top_p request)
  /\ ((exists e evs,
          generation t m request (inl e) evs
          /\ fst (App.predict request w)
             = inl {| App.status_code := 500;
                      App.detail :=
                        lit "답변 생성 중 오류 발생: " ++ message e |})
      \/ (exists full_output evs answer,
             generation t m request (inr full_output) evs
             /\ App.answer_only full_output = inr answer
             /\ fst (App.predict request w)
                = inr (answer_response request answer full_output)))
  /\ (forall b,
         App.model_validate b = Some request ->
         (App.status_of (fst (App.post_predict b w)) = 200%Z
          \/ App.status_of (fst (App.post_predict b w)) = 500%Z)
         /\ (forall e evs,
                generation t m request (inl e) evs ->
                App.status_of (fst (App.post_predict b w)) = 500%Z)
         /\ (forall full_output evs answer,
                generation t m request (inr full_output) evs ->
                App.answer_only full_output = inr answer ->
                App.status_of (fst (App.post_predict b w))
                = if App.serialisable
                       (answer_response request answer full_output)
                  then 200%Z else 500%Z)).
Proof.
  intros Hm Ht _.
  assert (Hroute : forall b r evs,
             App.model_validate b = Some request ->
             generation t m request r evs ->
             App.status_of (fst (App.post_predict b w))
             = match r with
               | inl _ => 500%Z
               | inr full_output =>
                   match App.answer_only full_output with
                   | inl _ => 500%Z
                   | inr answer =>
                       if App.serialisable
                            (answer_response request answer full_output)
                       then 200%Z else 500%Z
                   end
               end).
  { intros b r evs Hb Hg. unfold App.post_predict.
    rewrite Hb, (predict_loaded w request m t Hm Ht r evs Hg).
    destruct r as [e|full].
    - now destruct (App.encodable (App.detail (generation_failed e))).
    - destruct (App.answer_only full) as [e|answer].
      + now destruct (App.encodable (App.detail (generation_failed e))).
      + now destruct (App.serialisable (answer_response request answer full)). }
  destruct (generation_total request m t) as (r & evs & Hg).
  pose proof (predict_loaded w request m t Hm Ht r evs Hg) as Hp.
  assert (Hstatus : forall b,
             App.model_validate b = Some request ->
             App.status_of (fst (App.post_predict b w)) = 200%Z
             \/ App.status_of (fst (App.post_predict b w)) = 500%Z).
  { intros b Hb. rewrite (Hroute b r evs Hb Hg).
    destruct r as [e|full]; [now right|].
    destruct (App.answer_only full) as [e|answer]; [now right|].
    destruct (App.serialisable _); [now left | now right]. }
  split; [|split; [|split]].
  - intros b Hb. destruct (Hstatus b Hb) as [-> | ->]; reflexivity.
  - intros i i' H1 H2. exists (App.generate_args request t i').
    split; [|repeat split].
    rewrite Hp. cbn [snd after_calls calls]. apply in_or_app. right.
    destruct Hg;
      repeat match goal with
             | H : ?x = _, H' : ?x = _ |- _ =>
                 rewrite H in H'; first [discriminate H' | injection H' as ->]
             end;
      simpl; auto.
  - rewrite Hp. cbn [fst]. destruct r as [e|full].
    + left. now exists e, evs.
    + right. destruct (answer_only_total full) as [answer Ha].
      exists full, evs, answer. rewrite Ha. now repeat split.
  - intros b Hb. split; [exact (Hstatus b Hb)|]. split.
    + intros e evs' Hg'. exact (Hroute b _ _ Hb Hg').
    + intros full evs' answer Hg' Ha.
      rewrite (Hroute b _ _ Hb Hg'), Ha. reflexivity.
Qed.

Lemma out_of_range_reaches_runtime_witness :
  out_of_range out_of_range_request = true
  /\ exists args,
       In (CallGenerate args)
         (calls (snd (App.predict out_of_range_request (ready (lit " 2")))))
       /\ Generate.max_new_tokens args = Some 0%Z
       /\ Generate.temperature args = Some (-1)%float
       /\ Generate.top_k args = Some (-3)%Z
       /\ Generate.top_p args = Some 1.5%float.
Proof.
  split; [vm_compute; reflexivity|].
  refine (proj1 (proj2 (out_of_range_reaches_runtime (ready (lit " 2"))
                          (echo_model (lit " 2")) echo_tokenizer
                          out_of_range_request eq_refl eq_refl eq_refl))
            _ _ eq_refl eq_refl).
Defined.

(** C7 as stated fails: the body with [max_tokens = 0], [top_k = -3],
    [temperature = -1] and [top_p = 1.5] is accepted, [model.generate] is
    called with these values, and the response is 200. *)
Lemma out_of_range_counterexample :
  exists request response w',
    App.model_validate out_of_range_body = Some request
    /\ out_of_range request = true
    /\ App.post_predict out_of_range_body (ready (lit " 2")) = (response, w')
    /\ App.status_of response = 200%Z
    /\ client_error (App.status_of response) = false
    /\ exists args,
         In (CallGenerate args) (calls w')
         /\ Generate.max_new_tokens args = Some 0%Z
         /\ Generate.top_k args = Some (-3)%Z
         /\ Generate.temperature args = Some (-1)%float
         /\ Generate.top_p args = Some 1.5%float.
Proof.
  eexists _, _, _.
  split; [reflexivity|].
  split; [vm_compute; reflexivity|].
  split; [vm_compute; reflexivity|].
  split; [reflexivity|].
  split; [reflexivity|].
  eexists. split.
  - right. right. left. reflexivity.
  - repeat split.
Qed.

(** C8: with the model loaded, an exception raised by the tokenizer, by
    the move to the device, by [generate], by the indexing of its output or
    by the decoding makes [predict] raise the 500 exception whose detail
    ends with the message of that exception; when none raises, the
    response is complete: the question, the extracted answer, the decoded
    text, the model path and the device.  Nothing else is returned. *)
Theorem predict_complete_or_500 (w : World) (m : Model) (t : Tokenizer)
    (request : App.QuestionRequest.t) :
  model w = Some m ->
  tokenizer w = Some t ->
  (forall e evs,
      generation t m request (inl e) evs ->
      fst (App.predict request w)
      = inl {| App.status_code := 500;
               App.detail := lit "답변 생성 중 오류 발생: " ++ message e |})
  /\ (forall full_output evs,
         generation t m request (inr full_output) evs ->
         exists answer,
           App.answer_only full_output = inr answer
           /\ fst (App.predict request w)
              = inr {| App.AnswerResponse.question :=
                         App.QuestionRequest.question request;
                       App.AnswerResponse.answer := answer;
                       App.AnswerResponse.full_output := full_output;
                       App.AnswerResponse.model_path := App.MODEL_PATH;
                       App.AnswerResponse.device := App.device |})
  /\ ((exists e evs,
          generation t m request (inl e) evs
          /\ fst (App.predict request w) = inl (generation_failed e))
      \/ (exists full_output evs answer,
             generation t m request (inr full_output) evs
             /\ fst (App.predict request w)
                = inr (answer_response request answer full_output))).
Proof.
  intros Hm Ht.
  assert (Hok : forall full_output evs,
             generation t m request (inr full_output) evs ->
             exists answer,
               App.answer_only full_output = inr answer
               /\ fst (App.predict request w)
                  = inr (answer_response request answer full_output)).
  { intros full evs Hg.
    rewrite (predict_loaded w request m t Hm Ht _ _ Hg).
    destruct (answer_only_total full) as [answer Ha].
    exists answer. now rewrite Ha. }
  split; [|split].
  - intros e evs Hg.
    now rewrite (predict_loaded w request m t Hm Ht _ _ Hg).
  - exact Hok.
  - destruct (generation_total request m t) as ([e|full] & evs & Hg).
    + left. exists e, evs. split; [exact Hg|].
      now rewrite (predict_loaded w request m t Hm Ht _ _ Hg).
    + right. destruct (Hok _ _ Hg) as (answer & _ & Hp).
      exists full, evs, answer. now split.
Qed.

Lemma predict_complete_or_500_witness :
  fst (App.predict out_of_range_request
         {| tokenizer := Some echo_tokenizer;
            model := Some (failing_model {| message := lit "CUDA out of memory" |});
            calls := [] |})
  = inl {| App.status_code := 500;
           App.detail := lit "답변 생성 중 오류 발생: CUDA out of memory" |}.
Proof.
  refine (proj1 (predict_complete_or_500
                   {| tokenizer := Some echo_tokenizer;
                      model := Some (failing_model
                                       {| message := lit "CUDA out of memory" |});
                      calls := [] |}
                   (failing_model {| message := lit "CUDA out of memory" |})
                   echo_tokenizer out_of_range_request eq_refl eq_refl)
            {| message := lit "CUDA out of memory" |} _ _).
  eapply generating_raises; reflexivity.
Defined.

(** C9: whenever [predict] does not answer 503, [/health] reports
    [model_loaded = true] and "healthy"; not conversely: when the tokenizer
    download raises after the adapter was loaded, [load_model] re-raises
    and leaves [model] set and [tokenizer] at [None], where [/health]
    reports "healthy" with [model_loaded = true] and [predict] answers
    503.  What [/health] reports follows from [model] alone:
    "model_not_loaded" with [model_loaded = false] when it is [None],
    "healthy" with [model_loaded = true] when it is set, whatever the
    tokenizer; [predict] answers 503 exactly when [model] or [tokenizer]
    is [None]. *)
Theorem health_weaker_than_predict :
  (forall w request,
      fst (App.predict request w) <> inl not_loaded ->
      App.health_check w
      = {| App.HealthResponse.status := lit "healthy";
           App.HealthResponse.model_loaded := true;
           App.HealthResponse.device := lit "cpu" |})
  /\ (forall (L : Loader) (base m : Model) (e : Exception),
         let hf_token := environ L "HF_TOKEN" in
         let cache_dir :=
           match environ L "HF_HOME" with
           | Some d => d
           | None => lit "/tmp/hf_cache"
           end in
         import_peft L = inr tt ->
         AutoModelForCausalLM_from_pretrained L (lit "google/gemma-2b")
           hf_token cache_dir = inr base ->
         PeftModel_from_pretrained L base App.MODEL_PATH = inr m ->
         AutoTokenizer_from_pretrained L (lit "google/gemma-2b")
           hf_token cache_dir = inl e ->
         let w' := snd (App.load_model L App.initial) in
         fst (App.load_model L App.initial) = inl e
         /\ model w' = Some m
         /\ tokenizer w' = None
         /\ App.health_check w'
            = {| App.HealthResponse.status := lit "healthy";
                 App.HealthResponse.model_loaded := true;
                 App.HealthResponse.device := lit "cpu" |}
         /\ forall request, App.predict request w' = (inl not_loaded, w'))
  /\ (forall w,
         model w = None ->
         App.health_check w
         = {| App.HealthResponse.status := lit "model_not_loaded";
              App.HealthResponse.model_loaded := false;
              App.HealthResponse.device := lit "cpu" |})
  /\ (forall w m,
         model w = Some m ->
         App.health_check w
         = {| App.HealthResponse.status := lit "healthy";
              App.HealthResponse.model_loaded := true;
              App.HealthResponse.device := lit "cpu" |})
  /\ (forall w request,
         fst (App.predict request w) = inl not_loaded
         <-> model w = None \/ tokenizer w = None).
Proof.
  split; [|split; [|split; [|split]]].
  - intros w request H. unfold App.health_check.
    destruct (model w) eqn:Hm; [reflexivity|].
    contradiction H. now rewrite predict_not_loaded by (now left).
  - intros L base m e hf_token cache_dir Himport Hbase Hpeft Htok w'.
    assert (Hrun : App.load_model L App.initial
                   = (inl e, {| tokenizer := None; model := Some m;
                                calls := [] |})).
    { unfold App.load_model.
      cbv beta zeta delta [try_except bind lift ret raise set_model
                             set_tokenizer].
      fold hf_token. fold cache_dir.
      rewrite Himport, Hbase, Hpeft, Htok. reflexivity. }
    subst w'. rewrite Hrun. cbn [fst snd model tokenizer].
    do 4 (split; [reflexivity|]).
    intros request. apply predict_not_loaded. now right.
  - intros w H. unfold App.health_check. now rewrite H.
  - intros w m H. unfold App.health_check. now rewrite H.
  - intros w request. split.
    + intros H.
      destruct (model w) as [m|] eqn:Hm; [|now left].
      destruct (tokenizer w) as [t|] eqn:Ht; [|now right].
      exfalso.
      destruct (generation_total request m t) as (r & evs & Hg).
      rewrite (predict_loaded w request m t Hm Ht r evs Hg) in H.
      cbn [fst] in H. destruct r as [e|full]; [discriminate H|].
      destruct (App.answer_only full); discriminate H.
    + intros H. now rewrite predict_not_loaded.
Qed.

Lemma health_weaker_than_predict_witness :
  let w' :=
    snd (App.load_model
           (tokenizer_failing_loader (echo_model [])
              {| message := lit "Connection error" |})
           App.initial) in
  App.HealthResponse.model_loaded (App.health_check w') = true
  /\ App.predict out_of_range_request w' = (inl not_loaded, w').
Proof.
  pose proof (proj1 (proj2 health_weaker_than_predict)
                (tokenizer_failing_loader (echo_model [])
                   {| message := lit "Connection error" |})
                (echo_model []) (echo_model [])
                {| message := lit "Connection error" |}
                eq_refl eq_refl eq_refl eq_refl)
    as (_ & _ & _ & Hh & Hp).
  split.
  - exact (f_equal App.HealthResponse.model_loaded Hh).
  - exact (Hp out_of_range_request).
Defined.

(* ================================================================= *)
(** ** More on the extraction *)

Section ExtractionShape.

Lemma occurs_trans (a b c : str) : occurs a b -> occurs b c -> occurs a c.
Proof.
  intros (p & q & ->) (p' & q' & ->).
  exists (p' ++ p), (q ++ q'). now rewrite <- !app_assoc.
Qed.

Lemma occurs_strip_self (s : str) : occurs (strip s) s.
Proof. destruct (strip_infix s) as (l & r & H). now exists l, r. Qed.

Lemma lstrip_head (s : str) (c : char) (r : str) :
  lstrip s = c :: r -> isspace c = false.
Proof.
  induction s as [|a s IH]; simpl; [discriminate|].
  destruct (isspace a) eqn:Ha; [exact IH|].
  intros H. injection H as <- _. exact Ha.
Qed.

Lemma rstrip_idem (s : str) : rstrip (rstrip s) = rstrip s.
Proof. unfold rstrip. now rewrite rev_involutive, lstrip_idem. Qed.

Lemma strip_idem (s : str) : strip (strip s) = strip s.
Proof.
  unfold strip. destruct (lstrip s) as [|c r] eqn:Hl.
  - reflexivity.
  - pose proof (lstrip_head _ _ _ Hl) as Hc.
    change (c :: r) with ([] ++ c :: r).
    rewrite rstrip_app_nonspace by exact Hc.
    cbn [app lstrip]. rewrite Hc.
    change (c :: rstrip r) with ([] ++ c :: rstrip r).
    rewrite rstrip_app_nonspace by exact Hc.
    now rewrite rstrip_idem.
Qed.

(** Before the leftmost occurrence of a non-empty separator there is no
    occurrence. *)
Lemma first_occurrence_before (sep s x y : str) :
  sep <> [] -> first_occurrence sep s x y -> ~ occurs sep x.
Proof.
  intros Hne [-> Hmin] (p & q & ->).
  specialize (Hmin p (q ++ sep ++ y)).
  rewrite <- !app_assoc in Hmin. specialize (Hmin eq_refl).
  rewrite !length_app in Hmin.
  destruct sep; [now apply Hne | simpl in Hmin; lia].
Qed.

(** What one truncation step returns: a part of its argument without the
    separator, stripped when the argument was. *)
Lemma truncate_shape (sep a r : str) :
  sep <> [] ->
  truncate sep a = inr r ->
  ~ occurs sep r /\ occurs r a /\ (strip a = a -> strip r = r).
Proof.
  intros Hne. unfold truncate.
  destruct (contains sep a) eqn:Hin.
  - destruct (cut_found _ _ Hin) as (x & y & Hcut).
    rewrite (split_once _ _ _ _ Hcut). simpl.
    intros H. injection H as <-.
    pose proof (cut_sound _ _ _ _ Hcut) as Hfirst.
    pose proof (first_occurrence_before _ _ _ _ Hne Hfirst) as Hx.
    assert (Hxa : occurs x a).
    { destruct Hfirst as [-> _]. now exists [], (sep ++ y). }
    split; [|split].
    + intros H. apply Hx. exact (occurs_trans _ _ _ H (occurs_strip_self x)).
    + exact (occurs_trans _ _ _ (occurs_strip_self x) Hxa).
    + intros _. apply strip_idem.
  - intros H. injection H as <-.
    split; [now apply contains_false|].
    split; [now exists [], [] ; rewrite app_nil_r | trivial].
Qed.

End ExtractionShape.

(** X1: the two indexings of the extraction, [split(...)[1]] and
    [split(...)[0]], never raise: on every decoded text both copies of the
    extraction return an answer, and the same one. *)
Theorem extraction_never_raises (full_output : str) :
  exists answer,
    App.answer_only full_output = inr answer
    /\ TestLocal.answer_only full_output = inr answer.
Proof.
  destruct (answer_only_total full_output) as [answer H].
  exists answer. split; [exact H|].
  change (TestLocal.answer_only full_output)
    with (App.answer_only full_output).
  exact H.
Qed.

(** X2: when the decoded text holds the answer marker, the extracted answer
    is a contiguous part of the text, has no whitespace at either end, and
    holds neither ['<'] nor the question marker. *)
Theorem extracted_answer_clean (text answer : str) :
  occurs answer_marker text ->
  App.answer_only text = inr answer ->
  occurs answer text
  /\ strip answer = answer
  /\ ~ occurs lt_marker answer
  /\ ~ occurs question_marker answer.
Proof.
  intros Hin Hrun.
  apply contains_occurs in Hin.
  destruct (cut_found _ _ Hin) as (pre & after & Hcut).
  pose proof (cut_sound _ _ _ _ Hcut) as Hfirst.
  rewrite (answer_only_marker _ _ _ Hfirst) in Hrun.
  destruct (truncate question_marker (strip after)) as [e|a] eqn:Hq;
    [discriminate|].
  simpl in Hrun.
  assert (Hqne : question_marker <> []) by (intros H; discriminate H).
  assert (Hlne : lt_marker <> []) by (intros H; discriminate H).
  destruct (truncate_shape _ _ _ Hqne Hq) as (Hq1 & Hq2 & Hq3).
  destruct (truncate_shape _ _ _ Hlne Hrun) as (Hl1 & Hl2 & Hl3).
  split; [|split; [|split]].
  - apply (occurs_trans _ _ _ Hl2).
    apply (occurs_trans _ _ _ Hq2).
    apply (occurs_trans _ _ _ (occurs_strip_self after)).
    destruct Hfirst as [-> _]. exists (pre ++ answer_marker), [].
    now rewrite app_nil_r, <- app_assoc.
  - apply Hl3, Hq3, strip_idem.
  - exact Hl1.
  - intros H. apply Hq1. exact (occurs_trans _ _ _ H Hl2).
Qed.

Lemma extracted_answer_clean_witness :
  occurs (lit "복습") (lit "답변: 복습 <b>매일</b> 질문: 다음 <i>은?")
  /\ strip (lit "복습") = lit "복습"
  /\ ~ occurs lt_marker (lit "복습")
  /\ ~ occurs question_marker (lit "복습").
Proof.
  apply (extracted_answer_clean
           (lit "답변: 복습 <b>매일</b> 질문: 다음 <i>은?") (lit "복습")).
  - apply contains_occurs. vm_compute. reflexivity.
  - vm_compute. reflexivity.
Defined.

(* ================================================================= *)
(** ** The prompt in the decoded text *)

Section PromptEcho.

Lemma answer_marker_points : answer_marker = [45813; 48320; 58]%N.
Proof. vm_compute. reflexivity. Qed.

Lemma question_prefix_points : lit "질문: " = [51656; 47928; 58; 32]%N.
Proof. vm_compute. reflexivity. Qed.

Lemma startswith_app_long (sep s r : str) :
  List.length sep <= List.length s ->
  startswith sep (s ++ r) = startswith sep s.
Proof.
  revert s; induction sep as [|a sep IH]; intros s H.
  - reflexivity.
  - destruct s as [|b s]; simpl in H; [lia|].
    simpl. rewrite IH by lia. reflexivity.
Qed.

Lemma cut_app_right (sep s r a b : str) :
  cut sep s = Some (a, b) -> cut sep (s ++ r) = Some (a, b ++ r).
Proof.
  revert a b; induction s as [|c s IH]; intros a b H.
  - rewrite cut_unfold in H.
    destruct (startswith sep []) eqn:Hsw; [|discriminate].
    destruct sep; [|discriminate]. injection H as <- <-.
    rewrite cut_unfold. reflexivity.
  - pose proof (cut_sound _ _ _ _ H) as [Hs _].
    rewrite cut_unfold in H. rewrite cut_unfold.
    assert (Hlen : List.length sep <= List.length (c :: s)).
    { rewrite Hs, !length_app. lia. }
    rewrite startswith_app_long by exact Hlen.
    destruct (startswith sep (c :: s)) eqn:Hsw.
    + injection H as <- <-.
      rewrite skipn_app.
      replace (List.length sep - List.length (c :: s)) with 0 by lia.
      reflexivity.
    + destruct (cut sep s) as [[a' b']|] eqn:Hcut; [|discriminate].
      injection H as <- <-.
      simpl app. cbv iota beta. now rewrite (IH _ _ eq_refl).
Qed.

Lemma cut_cons_neq (a c : char) (p s : str) :
  (a =? c)%N = false ->
  cut (a :: p) (c :: s)
  = match cut (a :: p) s with
    | Some (x, y) => Some (c :: x, y)
    | None => None
    end.
Proof. intros H. simpl. now rewrite H. Qed.

(** A question without the answer marker, the line feed, the marker: the
    leftmost marker is the one of the template. *)
Lemma cut_marker_free (q rest : str) :
  ~ occurs answer_marker q ->
  cut answer_marker (q ++ App.nl ++ answer_marker ++ rest)
  = Some (q ++ App.nl, rest).
Proof.
  rewrite answer_marker_points. unfold App.nl.
  induction q as [|c q IH]; intros Hfree.
  - reflexivity.
  - assert (Hq : ~ occurs [45813; 48320; 58]%N q).
    { intros (x & y & ->). apply Hfree. now exists (c :: x), y. }
    rewrite cut_unfold.
    destruct (startswith _ ((c :: q) ++ _)) eqn:Hsw.
    + exfalso. apply startswith_true in Hsw. simpl in Hsw.
      destruct q as [|d [|e q]]; simpl in Hsw.
      * discriminate Hsw.
      * discriminate Hsw.
      * injection Hsw as -> -> ->.
        apply Hfree. now exists [], q.
    + simpl app. cbv iota beta.
      match goal with
      | |- match ?x with _ => _ end = _ =>
          replace x with (Some (q ++ [10%N], rest))
            by (symmetry; exact (IH Hq))
      end.
      reflexivity.
Qed.

End PromptEcho.

Lemma cut_prompt (q rest x y : str) :
  cut answer_marker (q ++ App.nl ++ answer_marker ++ rest) = Some (x, y) ->
  cut answer_marker (App.prompt_of q ++ rest) = Some (lit "질문: " ++ x, y).
Proof.
  intros H. unfold App.prompt_of. fold answer_marker.
  rewrite question_prefix_points, <- !app_assoc.
  rewrite answer_marker_points in H |- *.
  cbn [app].
  rewrite !cut_cons_neq by reflexivity.
  cbn [app] in H.
  match goal with
  | |- match match match match ?c with _ => _ end with _ => _ end
             with _ => _ end with _ => _ end = _ =>
      replace c with (Some (x, y)) by (symmetry; exact H)
  end.
  reflexivity.
Qed.

Lemma first_occurrence_head (sep rest : str) :
  first_occurrence sep (sep ++ rest) [] rest.
Proof. split; [reflexivity | simpl; lia]. Qed.

(** X3: when the decoded text is the prompt followed by a continuation and
    the question does not hold the answer marker, the marker found is the
    one of the prompt template and the answer is extracted from the
    continuation alone: the question has no part in it. *)
Theorem answer_from_continuation (question continuation : str) :
  ~ occurs answer_marker question ->
  first_occurrence answer_marker (App.prompt_of question ++ continuation)
    (lit "질문: " ++ question ++ App.nl) continuation
  /\ App.answer_only (App.prompt_of question ++ continuation)
     = App.answer_only (answer_marker ++ continuation).
Proof.
  intros Hfree.
  assert (Hfirst : first_occurrence answer_marker
                     (App.prompt_of question ++ continuation)
                     (lit "질문: " ++ question ++ App.nl) continuation).
  { apply cut_sound. apply cut_prompt. now apply cut_marker_free. }
  split; [exact Hfirst|].
  rewrite (answer_only_marker _ _ _ Hfirst).
  now rewrite (answer_only_marker _ _ _
                 (first_occurrence_head answer_marker continuation)).
Qed.

Lemma answer_from_continuation_witness :
  App.answer_only
    (App.prompt_of (lit "오답노트는 어떻게 정리할까요?")
     ++ lit " 매일 복습하세요. 질문: 다음은?")
  = App.answer_only (answer_marker ++ lit " 매일 복습하세요. 질문: 다음은?").
Proof.
  apply (answer_from_continuation (lit "오답노트는 어떻게 정리할까요?")
           (lit " 매일 복습하세요. 질문: 다음은?")).
  apply contains_false. vm_compute. reflexivity.
Defined.

(** X4: when the question itself holds the answer marker, the extraction
    starts inside the echoed question: the answer is extracted from the
    rest of the question, the line feed, the marker of the template and
    the continuation; when that text holds neither the question marker nor
    ['<'], it is returned stripped, the template's marker included. *)
Theorem answer_cut_inside_question (question q1 q2 continuation : str) :
  first_occurrence answer_marker question q1 q2 ->
  App.answer_only (App.prompt_of question ++ continuation)
  = App.answer_only
      (answer_marker ++ q2 ++ App.nl ++ answer_marker ++ continuation)
  /\ (~ occurs question_marker
          (q2 ++ App.nl ++ answer_marker ++ continuation) ->
      ~ occurs lt_marker (q2 ++ App.nl ++ answer_marker ++ continuation) ->
      App.answer_only (App.prompt_of question ++ continuation)
      = inr (strip (q2 ++ App.nl ++ answer_marker ++ continuation))).
Proof.
  intros Hq.
  assert (Hfirst : first_occurrence answer_marker
                     (App.prompt_of question ++ continuation)
                     (lit "질문: " ++ q1)
                     (q2 ++ App.nl ++ answer_marker ++ continuation)).
  { apply cut_sound. apply cut_prompt.
    exact (cut_app_right _ _ _ _ _ (cut_first _ _ _ _ Hq)). }
  rewrite (answer_only_marker _ _ _ Hfirst).
  split.
  - now rewrite (answer_only_marker _ _ _ (first_occurrence_head _ _)).
  - intros Hnq Hnl.
    rewrite truncate_absent by now apply contains_false.
    simpl. apply truncate_absent. now apply contains_false.
Qed.

Lemma answer_cut_inside_question_witness :
  App.answer_only (App.prompt_of (lit "답변: 이 뭐죠?") ++ lit " 모릅니다.")
  = inr (lit "이 뭐죠?" ++ App.nl ++ lit "답변: 모릅니다.").
Proof.
  refine (proj2 (answer_cut_inside_question
                   (lit "답변: 이 뭐죠?") [] (lit " 이 뭐죠?") (lit " 모릅니다.")
                   _) _ _).
  - apply cut_sound. vm_compute. reflexivity.
  - apply contains_false. vm_compute. reflexivity.
  - apply contains_false. vm_compute. reflexivity.
Defined.

(* ================================================================= *)
(** ** What [predict] does to the world *)

(** X5: [predict] never assigns the globals and only appends to the calls
    made: nothing when the model is not loaded, otherwise a non-empty
    beginning of the sequence tokenizer, move to the device, [generate],
    [decode]; so the tokenizer is always called first, with the prompt of
    the question, [generate] at most once, and [decode] only after it. *)
Theorem predict_frame (w : World) (request : App.QuestionRequest.t) :
  tokenizer (snd (App.predict request w)) = tokenizer w
  /\ model (snd (App.predict request w)) = model w
  /\ exists evs,
       calls (snd (App.predict request w)) = calls w ++ evs
       /\ (model w = None \/ tokenizer w = None -> evs = [])
       /\ (forall m t,
              model w = Some m ->
              tokenizer w = Some t ->
              evs <> []
              /\ exists i i' ids rest,
                   evs ++ rest = full_run request t i i' ids).
Proof.
  destruct (model w) as [m|] eqn:Hm; [destruct (tokenizer w) as [t|] eqn:Ht|].
  - destruct (generation_total request m t) as (r & evs & Hg).
    rewrite (predict_loaded w request m t Hm Ht r evs Hg).
    cbn [snd after_calls tokenizer model calls].
    split; [exact Ht|]. split; [exact Hm|].
    exists evs. split; [reflexivity|].
    split; [intros [H|H]; discriminate H|].
    intros m0 t0 H1 H2. injection H1 as <-. injection H2 as <-.
    unfold full_run.
    destruct Hg; (split; [discriminate|]).
    + now exists [], [], [], [CallTo [] App.device;
                             CallGenerate (App.generate_args request t []);
                             CallDecode []].
    + now exists i, [], [], [CallGenerate (App.generate_args request t []);
                            CallDecode []].
    + now exists i, i', [], [CallDecode []].
    + now exists i, i', [], [CallDecode []].
    + now exists i, i', ids, [].
    + now exists i, i', ids, [].
  - rewrite predict_not_loaded by (now right). cbn [snd].
    split; [exact Ht|]. split; [exact Hm|].
    exists []. split; [now rewrite app_nil_r|].
    split; [reflexivity | intros m0 t0 _ H; discriminate H].
  - rewrite predict_not_loaded by (now left). cbn [snd].
    split; [reflexivity|]. split; [exact Hm|].
    exists []. split; [now rewrite app_nil_r|].
    split; [reflexivity | intros m0 t0 H; discriminate H].
Qed.

(* ================================================================= *)
(** ** [load_model], step by step *)

Section LoadModel.

Variable L : Loader.
Variable w : World.

(** The outcome of [load_model] by the outcome of each step. *)
Lemma load_model_run :
  App.load_model L w
  = match import_peft L with
    | inl e => (inl e, w)
    | inr _ =>
        match base_model_of L with
        | inl e => (inl e, w)
        | inr base =>
            match PeftModel_from_pretrained L base App.MODEL_PATH with
            | inl e => (inl e, w)
            | inr m =>
                match tokenizer_of L with
                | inl e => (inl e, with_globals w (tokenizer w) (Some m))
                | inr t =>
                    match model_to L m App.device with
                    | inl e => (inl e, with_globals w (Some t) (Some m))
                    | inr m' =>
                        match model_eval L m' with
                        | inl e => (inl e, with_globals w (Some t) (Some m'))
                        | inr _ => (inr tt, with_globals w (Some t) (Some m'))
                        end
                    end
                end
            end
        end
    end.
Proof.
  unfold App.load_model, base_model_of, tokenizer_of, hf_token_of, cache_dir_of.
  cbv beta zeta delta [try_except bind lift ret raise set_model set_tokenizer].
  destruct (import_peft L); [reflexivity|].
  destruct (AutoModelForCausalLM_from_pretrained _ _ _ _) as [e|base];
    [reflexivity|].
  destruct (PeftModel_from_pretrained L base App.MODEL_PATH) as [e|m];
    [reflexivity|].
  destruct (AutoTokenizer_from_pretrained _ _ _ _) as [e|t]; [reflexivity|].
  cbn [tokenizer model calls].
  destruct (model_to L m App.device) as [e|m']; [reflexivity|].
  destruct (model_eval L m') as [e|[]]; reflexivity.
Qed.

(** With both globals set, [predict] does not answer 503. *)
Lemma predict_ready (t : Tokenizer) (m : Model)
    (request : App.QuestionRequest.t) :
  fst (App.predict request (with_globals w (Some t) (Some m)))
  <> inl not_loaded.
Proof.
  destruct (generation_total request m t) as (r & evs & Hg).
  rewrite (predict_loaded (with_globals w (Some t) (Some m)) request m t
             eq_refl eq_refl r evs Hg).
  cbn [fst]. destruct r as [e|full]; [discriminate|].
  destruct (App.answer_only full); discriminate.
Qed.

End LoadModel.





(** X8: when [model.to] or [model.eval] raises, [load_model] re-raises, yet
    both globals are already set (the model being the adapter model, or
    the moved one when [eval] raised): [/health] reports "healthy" and
    [predict] does not answer 503 although loading failed. *)
Theorem load_model_late_failure (L : Loader) (w : World) (base m : Model)
    (t : Tokenizer) (e : Exception) :
  import_peft L = inr tt ->
  base_model_of L = inr base ->
  PeftModel_from_pretrained L base App.MODEL_PATH = inr m ->
  tokenizer_of L = inr t ->
  model_to L m App.device = inl e
  \/ (exists m', model_to L m App.device = inr m' /\ model_eval L m' = inl e) ->
  fst (App.load_model L w) = inl e
  /\ tokenizer (snd (App.load_model L w)) = Some t
  /\ (model (snd (App.load_model L w)) = Some m
      \/ exists m',
           model_to L m App.device = inr m'
           /\ model (snd (App.load_model L w)) = Some m')
  /\ App.health_check (snd (App.load_model L w)) = healthy
  /\ forall request,
       fst (App.predict request (snd (App.load_model L w))) <> inl not_loaded.
Proof.
  intros H1 H2 H3 H4 [H5 | (m' & H5 & H6)];
    rewrite load_model_run, H1, H2, H3, H4, H5, ?H6; cbn [fst snd].
  - repeat split; [now left | intros request; apply predict_ready].
  - repeat split; [right; now exists m' | intros request; apply predict_ready].
Qed.

Lemma load_model_late_failure_witness :
  let L :=
    scripted_loader (inr tt) (inr (echo_model [])) (inr (echo_model (lit " 2")))
      (inr echo_tokenizer) (inl {| message := lit "out of memory" |}) (inr tt) in
  fst (App.load_model L App.initial) = inl {| message := lit "out of memory" |}
  /\ snd (App.load_model L App.initial) = ready (lit " 2").
Proof.
  intros L.
  pose proof (load_model_late_failure L App.initial (echo_model [])
                (echo_model (lit " 2")) echo_tokenizer
                {| message := lit "out of memory" |}
                eq_refl eq_refl eq_refl eq_refl (or_introl eq_refl))
    as (Hraise & _).
  split; [exact Hraise | reflexivity].
Defined.

(* ================================================================= *)
(** ** [ask_question] *)

Section AskQuestion.

Variables (m : Model) (t : Tokenizer) (question : str).
Variables (max_tokens : Z) (temperature : float) (w : World).

Lemma failure_sign (e : Exception) :
  startswith (lit "❌") (fst (ask_failed e)) = true.
Proof.
  unfold ask_failed, fst.
  replace (lit "❌ 답변 생성 실패: ") with (lit "❌" ++ lit " 답변 생성 실패: ")
    by (vm_compute; reflexivity).
  rewrite <- app_assoc. apply startswith_app.
Qed.

(** On the device [predict] uses, [ask_question] goes through the runs of
    [generation] for the request it stands for. *)
Lemma ask_question_generation :
  parameters_device m = inr App.device ->
  exists r evs,
    generation t m (asked question max_tokens temperature) r evs
    /\ TestLocal.ask_question m t question max_tokens temperature w
       = (match r with
          | inl e => ask_failed e
          | inr full_output =>
              match App.answer_only full_output with
              | inl e => ask_failed e
              | inr answer => (answer, full_output)
              end
          end, after_calls w evs).
Proof.
  intros Hdev. unfold TestLocal.ask_question.
  cbv beta zeta delta [bind call lift ret].
  destruct (tok_call t _) as [e|i] eqn:H1.
  { eexists (inl e), _. split; [eapply tokenizing_raises; exact H1|].
    reflexivity. }
  rewrite Hdev.
  destruct (encoding_to t i App.device) as [e|i'] eqn:H2.
  { eexists (inl e), _.
    split; [eapply moving_raises; [exact H1 | exact H2]|].
    unfold after_calls. cbn [calls tokenizer model].
    rewrite <- ?app_assoc. reflexivity. }
  destruct (generate m _) as [e|o] eqn:H3.
  { eexists (inl e), _.
    split; [eapply generating_raises; [exact H1 | exact H2 | exact H3]|].
    unfold after_calls. cbn [calls tokenizer model].
    rewrite <- ?app_assoc. reflexivity. }
  destruct (outputs_getitem m o 0) as [e|ids] eqn:H4.
  { eexists (inl e), _.
    split; [eapply indexing_raises; [exact H1 | exact H2 | exact H3 | exact H4]|].
    unfold after_calls. cbn [calls tokenizer model].
    rewrite <- ?app_assoc. reflexivity. }
  destruct (tok_decode t ids) as [e|full] eqn:H5.
  { eexists (inl e), _.
    split; [eapply decoding_raises;
            [exact H1 | exact H2 | exact H3 | exact H4 | exact H5]|].
    unfold after_calls. cbn [calls tokenizer model].
    rewrite <- ?app_assoc. reflexivity. }
  eexists (inr full), _.
  split; [eapply decoded; [exact H1 | exact H2 | exact H3 | exact H4 | exact H5]|].
  change (TestLocal.answer_only full) with (App.answer_only full).
  unfold after_calls. cbn [calls tokenizer model].
  rewrite <- ?app_assoc.
  destruct (App.answer_only full); reflexivity.
Qed.

(** Whatever the device, [ask_question] returns a pair. *)
Lemma ask_question_shape :
  (exists e,
      fst (TestLocal.ask_question m t question max_tokens temperature w)
      = ask_failed e)
  \/ (exists ids full_output answer,
         tok_decode t ids = inr full_output
         /\ App.answer_only full_output = inr answer
         /\ fst (TestLocal.ask_question m t question max_tokens temperature w)
            = (answer, full_output)).
Proof.
  unfold TestLocal.ask_question.
  cbv beta zeta delta [bind call lift ret].
  destruct (tok_call t _) as [e|i]; [left; now exists e|].
  destruct (parameters_device m) as [e|d]; [left; now exists e|].
  destruct (encoding_to t i d) as [e|i']; [left; now exists e|].
  destruct (generate m _) as [e|o]; [left; now exists e|].
  destruct (outputs_getitem m o 0) as [e|ids]; [left; now exists e|].
  destruct (tok_decode t ids) as [e|full] eqn:H5; [left; now exists e|].
  change (TestLocal.answer_only full) with (App.answer_only full).
  destruct (answer_only_total full) as [answer Ha]. rewrite Ha.
  right. now exists ids, full, answer.
Qed.

End AskQuestion.

(** X9: with the model and the tokenizer that are loaded in the service,
    and the model on the device of the service, [ask_question] makes the
    same calls as [predict] on the request with the same question,
    [max_tokens] and [temperature] and the default [top_k], [top_p] and
    [repetition_penalty]; it returns the answer and the decoded text of the
    response of [predict], and its failure text carries the message of the
    exception behind the 500 of [predict]. *)
Theorem ask_question_matches_predict (w : World) (m : Model) (t : Tokenizer)
    (question : str) (max_tokens : Z) (temperature : float) :
  model w = Some m ->
  tokenizer w = Some t ->
  parameters_device m = inr App.device ->
  snd (TestLocal.ask_question m t question max_tokens temperature w)
  = snd (App.predict (asked question max_tokens temperature) w)
  /\ match fst (App.predict (asked question max_tokens temperature) w) with
     | inr response =>
         fst (TestLocal.ask_question m t question max_tokens temperature w)
         = (App.AnswerResponse.answer response,
            App.AnswerResponse.full_output response)
     | inl raised =>
         exists e,
           raised = generation_failed e
           /\ fst (TestLocal.ask_question m t question max_tokens temperature w)
              = (lit "❌ 답변 생성 실패: " ++ message e, [])
     end.
Proof.
  intros Hm Ht Hdev.
  destruct (ask_question_generation m t question max_tokens temperature w Hdev)
    as (r & evs & Hg & Hask).
  rewrite Hask, (predict_loaded w _ m t Hm Ht r evs Hg). cbn [fst snd].
  split; [reflexivity|].
  destruct r as [e|full]; [now exists e|].
  destruct (App.answer_only full) as [e|answer]; [now exists e | reflexivity].
Qed.

Lemma ask_question_matches_predict_witness :
  snd (TestLocal.ask_question (echo_model (lit " 2")) echo_tokenizer
         (lit "1+1?") 0 (-1)%float (ready (lit " 2")))
  = snd (App.predict (asked (lit "1+1?") 0 (-1)%float) (ready (lit " 2"))).
Proof.
  refine (proj1 (ask_question_matches_predict (ready (lit " 2"))
                   (echo_model (lit " 2")) echo_tokenizer (lit "1+1?")
                   0 (-1)%float eq_refl eq_refl eq_refl)).
Defined.


(* ================================================================= *)
(** ** [load_local_model] and [test_local_model] *)

(** The outcome of [load_local_model], by the outcome of each step. *)
Lemma load_local_model_cases (L : TestLocal.LocalLoader) :
  (TestLocal.path_exists L (lit "./gemma2-finetuned") = false ->
   TestLocal.load_local_model L = (None, None))
  /\ (forall m t,
         TestLocal.load_local_model L = (Some m, Some t)
         <-> TestLocal.path_exists L (lit "./gemma2-finetuned") = true
             /\ exists base d,
                  TestLocal.local_AutoModelForCausalLM_from_pretrained L
                    (lit "google/gemma-2b") = inr base
                  /\ TestLocal.local_PeftModel_from_pretrained L base
                       (lit "./gemma2-finetuned") = inr m
                  /\ TestLocal.local_AutoTokenizer_from_pretrained L
                       (lit "google/gemma-2b") = inr t
                  /\ TestLocal.local_model_eval L m = inr tt
                  /\ parameters_device m = inr d)
  /\ (TestLocal.load_local_model L = (None, None)
      \/ exists m t, TestLocal.load_local_model L = (Some m, Some t)).
Proof.
  unfold TestLocal.load_local_model. cbv beta zeta delta [rbind].
  destruct (TestLocal.path_exists L _) eqn:Hp; cbn [negb].
  2:{ split; [reflexivity|]. split; [|now left].
      intros m t. split; [discriminate | intros [H _]; discriminate H]. }
  split; [discriminate|].
  destruct (TestLocal.local_AutoModelForCausalLM_from_pretrained L _)
    as [e|base] eqn:H1.
  { split; [|now left]. intros m t. split; [discriminate|].
    intros (_ & b & d & H & _). discriminate H. }
  destruct (TestLocal.local_PeftModel_from_pretrained L base _)
    as [e|m0] eqn:H2.
  { split; [|now left]. intros m t. split; [discriminate|].
    intros (_ & b & d & H & H' & _). injection H as <-.
    rewrite H2 in H'. discriminate H'. }
  destruct (TestLocal.local_AutoTokenizer_from_pretrained L _)
    as [e|t0] eqn:H3.
  { split; [|now left]. intros m t. split; [discriminate|].
    intros (_ & b & d & _ & _ & H & _). discriminate H. }
  destruct (TestLocal.local_model_eval L m0) as [e|[]] eqn:H4.
  { split; [|now left]. intros m t. split; [discriminate|].
    intros (_ & b & d & H & H' & _ & H'' & _). injection H as <-.
    rewrite H2 in H'. injection H' as <-. rewrite H4 in H''.
    discriminate H''. }
  destruct (parameters_device m0) as [e|d0] eqn:H5.
  { split; [|now left]. intros m t. split; [discriminate|].
    intros (_ & b & d & H & H' & _ & _ & H''). injection H as <-.
    rewrite H2 in H'. injection H' as <-. rewrite H5 in H''.
    discriminate H''. }
  split; [|right; now exists m0, t0].
  intros m t. split.
  - intros H. injection H as <- <-.
    split; [reflexivity|]. now exists base, d0.
  - intros (_ & b & d & H & H' & H'' & _). injection H as <-.
    rewrite H2 in H'. injection H' as <-. injection H'' as <-. reflexivity.
Qed.


Lemma ask_each_returns (m : Model) (t : Tokenizer) (d : str) :
  parameters_device m = inr d ->
  forall questions w, fst (TestLocal.ask_each m t questions w) = inr tt.
Proof.
  intros Hd. induction questions as [|question rest IH]; intros w.
  - reflexivity.
  - cbn [TestLocal.ask_each].
    destruct (TestLocal.ask_question m t question 120 0.3 w)
      as [[answer full_output] w'].
    destruct (startswith _ answer); [apply IH|].
    rewrite Hd. apply IH.
Qed.



(* ================================================================= *)
(** ** [test_huggingface_api] *)

Section HuggingfaceClient.

Import TestHuggingface.

Variable env : Surroundings.

Lemma get_object (data : json) (key : str) (default : json) :
  (exists members, data = JObject members /\ exists v, get data key default = inr v)
  \/ ((forall members, data <> JObject members)
      /\ exists e, get data key default = inl (Uncaught e)).
Proof.
  destruct data; simpl;
    try (right; split; [discriminate | eexists; reflexivity]).
  left. eexists. split; [reflexivity | eexists; reflexivity].
Qed.

Lemma answeredb_spec (question : str) :
  answeredb (post env) question = true <-> answered (post env) question.
Proof.
  unfold answeredb, answered.
  destruct (post env base_url (payload question) 120%Z) as [ex|response].
  { split; [discriminate | intros (r & ms & H & _); discriminate H]. }
  destruct (status_code response =? 200)%Z eqn:Hs; cbn [andb].
  2:{ split; [discriminate|].
      intros (r & ms & H & H' & _). injection H as <-.
      apply Z.eqb_neq in Hs. contradiction. }
  apply Z.eqb_eq in Hs.
  destruct (json_body response) as [ex|data] eqn:Hj.
  { split; [discriminate|].
    intros (r & ms & H & _ & H'). injection H as <-.
    rewrite Hj in H'. discriminate H'. }
  destruct data;
    try (split; [discriminate|];
         intros (r & ms & H & _ & H'); injection H as <-;
         rewrite Hj in H'; discriminate H').
  split; [intros _ | reflexivity]. now exists response, members.
Qed.

(** One question, when no exception escapes: the POST was sent and the
    count grew by one exactly when the question was answered. *)
Lemma guarded_completed (question : str) (success_count : nat)
    (done : list effect) (n : nat) (done' : list effect) :
  guarded env question success_count done = (inr n, done') ->
  done' = done ++ [Post base_url (payload question) 120%Z]
  /\ n = (if answeredb (post env) question then 1 else 0) + success_count.
Proof.
  unfold guarded, attempt, answeredb.
  cbv beta iota zeta
    delta [and_then say say_in_try requests_post in_try done_with].
  destruct (print env Waiting); [discriminate|].
  destruct (post env base_url (payload question) 120%Z) as [[e|e|e]|response].
  - destruct (print env TimedOut); [discriminate|].
    intros H. injection H as <- <-. now split.
  - destruct (print env (RequestFailed e)); [discriminate|].
    intros H. injection H as <- <-. now split.
  - discriminate.
  - destruct (status_code response =? 200)%Z; cbn [andb].
    + destruct (json_body response) as [[e|e|e]|data].
      * destruct (print env TimedOut); [discriminate|].
        intros H. injection H as <- <-. now split.
      * destruct (print env (RequestFailed e)); [discriminate|].
        intros H. injection H as <- <-. now split.
      * discriminate.
      * destruct (get_object data (lit "answer") data)
          as [(ms & -> & v & Hv) | (Hno & e & He)].
        -- rewrite Hv. destruct (print env (Answer v)); [discriminate|].
           intros H. injection H as <- <-. now split.
        -- rewrite He. discriminate.
    + destruct (print env (CallFailed (status_code response)));
        [discriminate|].
      destruct (print env (ErrorText (text response))); [discriminate|].
      intros H. injection H as <- <-. now split.
Qed.

(** The loop, when no exception escapes it. *)
Lemma ask_each_completed (total : nat) :
  forall questions i success_count done n log,
    i + List.length questions = S total ->
    ask_each env total i questions success_count done = (inr n, log) ->
    log = done ++ spaced_posts questions
    /\ n = List.length (filter (answeredb (post env)) questions)
           + success_count.
Proof.
  induction questions as [|question rest IH];
    intros i success_count done n log Hi Hrun.
  - cbn [ask_each] in Hrun. unfold done_with in Hrun.
    injection Hrun as <- <-. now rewrite app_nil_r.
  - cbn [ask_each] in Hrun.
    unfold and_then at 1 2 3 in Hrun. unfold say in Hrun.
    destruct (print env (Header i total)); [discriminate Hrun|].
    destruct (print env (Asked question)); [discriminate Hrun|].
    destruct (guarded env question success_count done) as [[e|n1] d1] eqn:Hg;
      [discriminate Hrun|].
    apply guarded_completed in Hg as [-> ->].
    unfold and_then in Hrun.
    cbn [filter List.length spaced_posts]. simpl in Hi.
    destruct rest as [|q' rest'].
    + replace (i <? total) with false in Hrun
        by (symmetry; apply Nat.ltb_ge; simpl in Hi; lia).
      unfold done_with in Hrun. cbn [ask_each] in Hrun.
      injection Hrun as <- <-.
      split; [reflexivity|].
      destruct (answeredb (post env) question); simpl; lia.
    + replace (i <? total) with true in Hrun
        by (symmetry; apply Nat.ltb_lt; simpl in Hi; lia).
      unfold time_sleep in Hrun.
      apply IH in Hrun; [|simpl in Hi |- *; lia].
      destruct Hrun as [-> ->].
      split; [now rewrite <- !app_assoc|].
      destruct (answeredb (post env) question); simpl; lia.
Qed.

End HuggingfaceClient.

Section HuggingfaceVerdict.

Import TestHuggingface.

Variable env : Surroundings.

(** When [test_huggingface_api] returns, its loop returned. *)
Lemma api_completed (done : list effect) (b : bool) (log : list effect) :
  test_huggingface_api env done = (inr b, log) ->
  exists n,
    ask_each env (List.length test_questions) 1 test_questions 0 done
    = (inr n, log)
    /\ b = (0 <? n).
Proof.
  unfold test_huggingface_api, and_then, say, done_with. cbv beta iota.
  destruct (print env Rule); [discriminate|].
  destruct (print env Title); [discriminate|].
  destruct (print env (Address base_url)); [discriminate|].
  destruct (print env Starting); [discriminate|].
  destruct (ask_each env _ 1 test_questions 0 done) as [[e|n] d];
    [discriminate|].
  destruct (print env ClosingRule); [discriminate|].
  destruct (print env (Finished n _)); [discriminate|].
  destruct (0 <? n) eqn:Hn.
  - destruct (print env Working); [discriminate|].
    intros H. injection H as <- <-. now exists n.
  - destruct (print env NotWorking); [discriminate|].
    intros H. injection H as <- <-. now exists n.
Qed.

(** The effects, whatever happens: nothing, or the one POST. *)
Lemma api_effects :
  snd (test_huggingface_api env []) = []
  \/ snd (test_huggingface_api env [])
     = [Post base_url (payload (lit "오답노트는 어떻게 정리할까요?")) 120%Z].
Proof.
  unfold test_huggingface_api, test_questions.
  cbn [ask_each List.length]. unfold guarded, attempt.
  cbv beta iota zeta
    delta [and_then say say_in_try requests_post in_try done_with time_sleep
             Nat.ltb Nat.leb app].
  repeat (cbv beta iota;
          match goal with
          | |- context [match ?x with _ => _ end] =>
              lazymatch x with
              | context [match _ with _ => _ end] => fail
              | _ => destruct x
              end
          end);
    cbv beta iota; cbn [snd]; auto.
Qed.

(** With an output stream that takes every line, the result by the
    outcome of the POST. *)
Lemma api_quiet :
  quiet env ->
  test_huggingface_api env []
  = (match post env base_url (payload (lit "오답노트는 어떻게 정리할까요?"))
             120%Z with
     | inl (Uncaught e) => inl e
     | inl _ => inr false
     | inr response =>
         if (status_code response =? 200)%Z then
           match json_body response with
           | inl (Uncaught e) => inl e
           | inl _ => inr false
           | inr data =>
               match get data (lit "answer") data with
               | inl (Uncaught e) => inl e
               | inl _ => inr false
               | inr _ => inr true
               end
           end
         else inr false
     end,
     [Post base_url (payload (lit "오답노트는 어떻게 정리할까요?")) 120%Z]).
Proof.
  intros Hq. unfold quiet in Hq.
  unfold test_huggingface_api, test_questions.
  cbn [ask_each List.length]. unfold guarded, attempt.
  cbv beta iota zeta
    delta [and_then say say_in_try requests_post in_try done_with time_sleep
             Nat.ltb Nat.leb app].
  repeat (rewrite ?Hq; cbv beta iota;
          match goal with
          | |- context [match ?x with _ => _ end] =>
              lazymatch x with
              | context [match _ with _ => _ end] => fail
              | _ => destruct x
              end
          end);
    rewrite ?Hq; cbv beta iota; reflexivity.
Qed.

(** When the function returns: the one POST was sent, and the result says
    whether it was answered. *)
Lemma api_returned (b : bool) :
  fst (test_huggingface_api env []) = inr b ->
  snd (test_huggingface_api env [])
  = [Post base_url (payload (lit "오답노트는 어떻게 정리할까요?")) 120%Z]
  /\ (b = true
      <-> answered (post env) (lit "오답노트는 어떻게 정리할까요?")).
Proof.
  destruct (test_huggingface_api env []) as [r log] eqn:Hrun.
  cbn [fst snd]. intros ->.
  destruct (api_completed _ _ _ Hrun) as (n & Hloop & ->).
  apply (ask_each_completed env 1) in Hloop; [|reflexivity].
  destruct Hloop as [-> ->].
  split; [reflexivity|].
  rewrite <- answeredb_spec. unfold test_questions. cbn [filter].
  destruct (answeredb (post env) _); split; (reflexivity || discriminate).
Qed.

(** When only the print of the answer raises. *)
Lemma api_answer_print (response : Response) (data shown : json)
    (e : Exception) :
  (forall l, (forall v, l <> Answer v) -> print env l = inr tt) ->
  post env base_url (payload (lit "오답노트는 어떻게 정리할까요?")) 120%Z
  = inr response ->
  status_code response = 200%Z ->
  json_body response = inr data ->
  get data (lit "answer") data = inr shown ->
  print env (Answer shown) = inl e ->
  test_huggingface_api env []
  = (inl e,
     [Post base_url (payload (lit "오답노트는 어떻게 정리할까요?")) 120%Z]).
Proof.
  intros Hrest Hpost Hs Hj Hg Hp.
  unfold test_huggingface_api, test_questions.
  cbn [ask_each List.length]. unfold guarded, attempt.
  cbv beta iota zeta
    delta [and_then say say_in_try requests_post in_try done_with time_sleep
             Nat.ltb Nat.leb app].
  rewrite !Hrest by (intros v; discriminate). cbv beta iota.
  rewrite Hpost. cbv beta iota. rewrite Hs. cbn [Z.eqb Pos.eqb].
  rewrite Hj. cbv beta iota. rewrite Hg. cbv beta iota.
  rewrite Hp. reflexivity.
Qed.

End HuggingfaceVerdict.

(** X13: [test_huggingface_api] sends at most one POST, with the question,
    [max_tokens = 80], [temperature = 0.3] and a timeout of 120 seconds,
    and never sleeps; when it returns, that POST was sent and the result
    is [True] exactly when it was answered 200 with a JSON object.  With
    an output stream that takes every line, a [Timeout], another
    [RequestException] and any other status give [False], and the function
    raises only an exception of neither class, coming from the POST, from
    the decoding of the body, or from [get] on a body that is no object.
    When the print of the answer raises, inside the [try], the function
    raises that exception instead of counting a success. *)
Theorem test_huggingface_api_verdict (env : TestHuggingface.Surroundings) :
  (snd (TestHuggingface.test_huggingface_api env []) = []
   \/ snd (TestHuggingface.test_huggingface_api env [])
      = [TestHuggingface.Post TestHuggingface.base_url
           (TestHuggingface.JObject
              [(lit "question",
                TestHuggingface.JStr (lit "오답노트는 어떻게 정리할까요?"));
               (lit "max_tokens", TestHuggingface.JInt 80);
               (lit "temperature", TestHuggingface.JFloat 0.3%float)])
           120%Z])
  /\ (forall b,
         fst (TestHuggingface.test_huggingface_api env []) = inr b ->
         snd (TestHuggingface.test_huggingface_api env [])
         = [TestHuggingface.Post TestHuggingface.base_url
              (TestHuggingface.payload (lit "오답노트는 어떻게 정리할까요?"))
              120%Z]
         /\ (b = true
             <-> answered (TestHuggingface.post env)
                   (lit "오답노트는 어떻게 정리할까요?")))
  /\ (quiet env ->
      snd (TestHuggingface.test_huggingface_api env [])
      = [TestHuggingface.Post TestHuggingface.base_url
           (TestHuggingface.payload (lit "오답노트는 어떻게 정리할까요?"))
           120%Z]
      /\ (fst (TestHuggingface.test_huggingface_api env []) = inr true
          <-> answered (TestHuggingface.post env)
                (lit "오답노트는 어떻게 정리할까요?"))
      /\ (forall e,
             TestHuggingface.post env TestHuggingface.base_url
               (TestHuggingface.payload (lit "오답노트는 어떻게 정리할까요?"))
               120%Z
             = inl (TestHuggingface.Timeout e)
             \/ TestHuggingface.post env TestHuggingface.base_url
                  (TestHuggingface.payload
                     (lit "오답노트는 어떻게 정리할까요?")) 120%Z
                = inl (TestHuggingface.RequestException e) ->
             fst (TestHuggingface.test_huggingface_api env []) = inr false)
      /\ (forall response,
             TestHuggingface.post env TestHuggingface.base_url
               (TestHuggingface.payload (lit "오답노트는 어떻게 정리할까요?"))
               120%Z
             = inr response ->
             TestHuggingface.status_code response <> 200%Z ->
             fst (TestHuggingface.test_huggingface_api env []) = inr false)
      /\ (forall e,
             fst (TestHuggingface.test_huggingface_api env []) = inl e ->
             TestHuggingface.post env TestHuggingface.base_url
               (TestHuggingface.payload (lit "오답노트는 어떻게 정리할까요?"))
               120%Z
             = inl (TestHuggingface.Uncaught e)
             \/ exists response,
                  TestHuggingface.post env TestHuggingface.base_url
                    (TestHuggingface.payload
                       (lit "오답노트는 어떻게 정리할까요?")) 120%Z
                  = inr response
                  /\ TestHuggingface.status_code response = 200%Z
                  /\ (TestHuggingface.json_body response
                      = inl (TestHuggingface.Uncaught e)
                      \/ exists data,
                           TestHuggingface.json_body response = inr data
                           /\ (forall members,
                                  data <> TestHuggingface.JObject members)
                           /\ TestHuggingface.get data (lit "answer") data
                              = inl (TestHuggingface.Uncaught e))))
  /\ (forall response data shown e,
         (forall l,
             (forall v, l <> TestHuggingface.Answer v) ->
             TestHuggingface.print env l = inr tt) ->
         TestHuggingface.post env TestHuggingface.base_url
           (TestHuggingface.payload (lit "오답노트는 어떻게 정리할까요?")) 120%Z
         = inr response ->
         TestHuggingface.status_code response = 200%Z ->
         TestHuggingface.json_body response = inr data ->
         TestHuggingface.get data (lit "answer") data = inr shown ->
         TestHuggingface.print env (TestHuggingface.Answer shown) = inl e ->
         TestHuggingface.test_huggingface_api env []
         = (inl e,
            [TestHuggingface.Post TestHuggingface.base_url
               (TestHuggingface.payload (lit "오답노트는 어떻게 정리할까요?"))
               120%Z])).
Proof.
  split; [exact (api_effects env)|].
  split; [exact (api_returned env)|].
  split; [|exact (api_answer_print env)].
  intros Hq. rewrite (api_quiet env Hq). cbn [fst snd].
  split; [reflexivity|].
  rewrite <- answeredb_spec. unfold answeredb.
  destruct (TestHuggingface.post env _ _ _) as [[e|e|e]|response].
  - split; [split; discriminate|]. split; [reflexivity|].
    split; [intros r H; discriminate H | intros e' H; discriminate H].
  - split; [split; discriminate|]. split; [reflexivity|].
    split; [intros r H; discriminate H | intros e' H; discriminate H].
  - split; [split; discriminate|].
    split; [intros e' [H|H]; discriminate H|].
    split; [intros r H; discriminate H|].
    intros e' H. injection H as <-. now left.
  - destruct (TestHuggingface.status_code response =? 200)%Z eqn:Hs;
      cbn [andb].
    2:{ split; [split; discriminate|]. split; [reflexivity|].
        split; [reflexivity | intros e' H; discriminate H]. }
    apply Z.eqb_eq in Hs.
    assert (Hno : forall r,
               @inr TestHuggingface.raised _ response = inr r ->
               TestHuggingface.status_code r <> 200%Z ->
               @inr Exception bool true = inr false).
    { intros r H Hr. injection H as <-. contradiction. }
    destruct (TestHuggingface.json_body response) as [[e|e|e]|data] eqn:Hj.
    + split; [split; discriminate|].
      split; [intros e' [H|H]; discriminate H|].
      split; [intros r H Hr; injection H as <-; contradiction|].
      intros e' H; discriminate H.
    + split; [split; discriminate|].
      split; [intros e' [H|H]; discriminate H|].
      split; [intros r H Hr; injection H as <-; contradiction|].
      intros e' H; discriminate H.
    + split; [split; discriminate|].
      split; [intros e' [H|H]; discriminate H|].
      split; [intros r H Hr; injection H as <-; contradiction|].
      intros e' H. injection H as <-. right. exists response.
      split; [reflexivity|]. split; [exact Hs|]. left. exact Hj.
    + destruct data;
        cbn [TestHuggingface.get];
        (split; [split; (reflexivity || discriminate)|]);
        (split; [intros e' [H|H]; discriminate H|]);
        (split; [intros r H Hr; injection H as <-; contradiction|]);
        intros e' H; try discriminate H;
        injection H as <-; right; exists response;
        (split; [reflexivity|]); (split; [exact Hs|]); right;
        eexists; (split; [exact Hj|]); (split; [discriminate | reflexivity]).
Qed.

Lemma test_huggingface_api_verdict_witness :
  TestHuggingface.test_huggingface_api surrogate_surroundings []
  = (inl {| message := lit "surrogates not allowed" |},
     [TestHuggingface.Post TestHuggingface.base_url
        (TestHuggingface.payload (lit "오답노트는 어떻게 정리할까요?")) 120%Z]).
Proof.
  apply (proj2 (proj2 (proj2
                  (test_huggingface_api_verdict surrogate_surroundings)))
           surrogate_response
           (TestHuggingface.JObject
              [(lit "answer", TestHuggingface.JStr [55296%N])])
           (TestHuggingface.JStr [55296%N])
           {| message := lit "surrogates not allowed" |}).
  - intros l Hl. destruct l; try reflexivity. now contradiction (Hl shown).
  - reflexivity.
  - reflexivity.
  - reflexivity.
  - vm_compute. reflexivity.
  - reflexivity.
Defined.

(** X14: the questions loop of [test_huggingface_api], for any list of
    questions: when no exception escapes, it has sent one POST per
    question, in order, with two seconds of sleep between two questions
    and none after the last, and the count of successes is the number of
    questions answered 200 with a JSON object; so the result is [True]
    exactly when some question was so answered. *)
Theorem questions_loop_completed (env : TestHuggingface.Surroundings)
    (questions : list str) (n : nat) (log : list TestHuggingface.effect) :
  TestHuggingface.ask_each env (List.length questions) 1 questions 0 []
  = (inr n, log) ->
  log = spaced_posts questions
  /\ n = List.length (filter (answeredb (TestHuggingface.post env)) questions)
  /\ ((0 <? n) = true
      <-> exists question,
            In question questions
            /\ answered (TestHuggingface.post env) question).
Proof.
  intros Hrun.
  apply ask_each_completed in Hrun; [|simpl; lia].
  destruct Hrun as [-> ->]. rewrite Nat.add_0_r.
  split; [reflexivity|]. split; [reflexivity|].
  rewrite Nat.ltb_lt. split.
  - intros Hpos.
    destruct (filter (answeredb (TestHuggingface.post env)) questions)
      as [|q l] eqn:Hf; [simpl in Hpos; lia|].
    assert (Hin : In q (filter (answeredb (TestHuggingface.post env))
                          questions))
      by (rewrite Hf; now left).
    apply filter_In in Hin as [Hin Hq].
    exists q. split; [exact Hin | now apply answeredb_spec].
  - intros (q & Hin & Hq).
    assert (Hin' : In q (filter (answeredb (TestHuggingface.post env))
                           questions)).
    { apply filter_In. split; [exact Hin | now apply answeredb_spec]. }
    destruct (filter (answeredb (TestHuggingface.post env)) questions);
      [contradiction Hin'|].
    simpl. lia.
Qed.

Lemma questions_loop_completed_witness :
  let post := fun (url : str) (payload : TestHuggingface.json) (timeout : Z) =>
    match payload with
    | TestHuggingface.JObject ((_, TestHuggingface.JStr [_]) :: _) =>
        inl (TestHuggingface.Timeout {| message := lit "Read timed out." |})
    | _ =>
        inr {| TestHuggingface.status_code := 200;
               TestHuggingface.json_body :=
                 inr (TestHuggingface.JObject
                        [(lit "answer", TestHuggingface.JStr (lit "2"))]);
               TestHuggingface.text := [] |}
    end in
  spaced_posts [lit "a"; lit "1+1?"; lit "b"]
  = [TestHuggingface.Post TestHuggingface.base_url
       (TestHuggingface.payload (lit "a")) 120%Z;
     TestHuggingface.Sleep 2;
     TestHuggingface.Post TestHuggingface.base_url
       (TestHuggingface.payload (lit "1+1?")) 120%Z;
     TestHuggingface.Sleep 2;
     TestHuggingface.Post TestHuggingface.base_url
       (TestHuggingface.payload (lit "b")) 120%Z]
  /\ 1 = List.length (filter (answeredb post) [lit "a"; lit "1+1?"; lit "b"]).
Proof.
  intros post.
  pose proof (questions_loop_completed (printing post)
                [lit "a"; lit "1+1?"; lit "b"] 1
                (spaced_posts [lit "a"; lit "1+1?"; lit "b"]) eq_refl)
    as (_ & Hn & _).
  split; [reflexivity | exact Hn].
Defined.

(** A question holding a lone surrogate comes back in the response, which
    then cannot be encoded: the route answers the plain 500. *)
Example surrogate_question_status :
  fst (App.post_predict (question_only [55296%N]) (ready (lit " 2")))
  = App.InternalServerError.
Proof. vm_compute. reflexivity. Qed.
